(** * Batch-Convert-FFmpeg: the per-file pipeline of AIO_Python.py

    A shallow embedding of [src/AIO_Python.py].  The script walks a media
    library, removes duplicate files, transcodes the rest to H.264/MP4 with
    a GPU-then-CPU strategy, extracts subtitle tracks and records which
    paths it has handled.

    Modelling conventions.
    - A [pathlib.Path] is the string [str(path)]; [name], [stem], [suffix],
      [with_name] and [with_suffix] are computed from it as pathlib does.
      [resolve()] is the identity: scanned paths are already canonical.
    - The media library is a finite map from path strings to files.  The two
      state files ([processed.txt], [hashes_db.txt]) are text contents kept
      next to it.
    - Code that mutates the shared sets and the file system threads a
      [State] and may raise: [M A = State -> result A].  An uncaught Python
      exception is [Raise], carrying the state reached when it was thrown.
    - Everything outside the script (hashlib, glob matching, ffprobe, ffmpeg,
      the clock, uuid4, langdetect) is a field of [World].  The encoder is
      assumed to write nothing but its output path.
    - Every subprocess call, unlink, rename and decision log line is
      recorded in [trace], in program order.
    - The thread pool is modelled by running [process_video] atomically,
      file by file; interleavings inside one call are not represented. *)

From Stdlib Require Import ZArith NArith Ascii String Strings.Byte.
From stdpp Require Import base tactics option list gmap sets strings sorting pretty.

Local Open Scope string_scope.
Local Open Scope list_scope.

(** ** Strings *)

Module Str.

(** Split at the last occurrence of [c]: [s = l ++ c :: r]. *)
Fixpoint rsplit (c : ascii) (s : string) : option (string * string) :=
  match s with
  | EmptyString => None
  | String a s' =>
      match rsplit c s' with
      | Some (l, r) => Some (String a l, r)
      | None => if Ascii.eqb a c then Some (EmptyString, s') else None
      end
  end.

(** [needle in hay] for Python strings. *)
Fixpoint contains (needle hay : string) : bool :=
  String.prefix needle hay
  || match hay with
     | EmptyString => false
     | String _ hay' => contains needle hay'
     end.

(** [hay.endswith(ending)]. *)
Fixpoint endswith (hay ending : string) : bool :=
  String.eqb hay ending
  || match hay with
     | EmptyString => false
     | String _ hay' => endswith hay' ending
     end.

Definition lower_ascii (a : ascii) : ascii :=
  let n := N_of_ascii a in
  if (65 <=? n)%N && (n <=? 90)%N then ascii_of_N (n + 32) else a.

(** [s.lower()] on ASCII letters. *)
Fixpoint lower (s : string) : string :=
  match s with
  | EmptyString => EmptyString
  | String a s' => String (lower_ascii a) (lower s')
  end.

(** [str.isspace] on one ASCII character: TAB..CR, FS..US and space. *)
Definition is_space (a : ascii) : bool :=
  let n := N_of_ascii a in
  ((9 <=? n)%N && (n <=? 13)%N) || ((28 <=? n)%N && (n <=? 32)%N).

Fixpoint lstrip (s : string) : string :=
  match s with
  | EmptyString => EmptyString
  | String a s' => if is_space a then lstrip s' else s
  end.

Fixpoint rstrip (s : string) : string :=
  match s with
  | EmptyString => EmptyString
  | String a s' =>
      match rstrip s' with
      | EmptyString => if is_space a then EmptyString else String a EmptyString
      | r => String a r
      end
  end.

(** [s.strip()]. *)
Definition strip (s : string) : string := rstrip (lstrip s).

(** Truthiness of a Python string. *)
Definition truthy (s : string) : bool := negb (String.eqb s "").

(** Line breaks recognised when a text file is read back (universal
    newlines): LF and CR. *)
Definition is_newline (a : ascii) : bool :=
  let n := N_of_ascii a in (n =? 10)%N || (n =? 13)%N.

(** The segments of [s] between separator characters. *)
Fixpoint split_on (sep : ascii -> bool) (s : string) : list string :=
  match s with
  | EmptyString => [EmptyString]
  | String a s' =>
      if sep a then EmptyString :: split_on sep s'
      else match split_on sep s' with
           | [] => [String a EmptyString]
           | seg :: segs => String a seg :: segs
           end
  end.

Fixpoint forallb_str (P : ascii -> bool) (s : string) : bool :=
  match s with
  | EmptyString => true
  | String a s' => P a && forallb_str P s'
  end.

End Str.

(** ** Paths, as pathlib exposes them *)

Module PathLib.

Definition sep : ascii := "/"%char.

(** Everything up to and including the last separator. *)
Definition dirprefix (p : string) : string :=
  match Str.rsplit sep p with
  | Some (l, _) => l +:+ String sep EmptyString
  | None => EmptyString
  end.

(** [p.name] *)
Definition name (p : string) : string :=
  match Str.rsplit sep p with
  | Some (_, r) => r
  | None => p
  end.

(** [PurePath.stem] and [PurePath.suffix] of a file name:
    [i = name.rfind('.')], split there when [0 < i < len(name) - 1]. *)
Definition split_ext (n : string) : string * string :=
  match Str.rsplit "."%char n with
  | Some (l, r) =>
      if String.eqb l "" || String.eqb r "" then (n, EmptyString)
      else (l, String "."%char r)
  | None => (n, EmptyString)
  end.

Definition stem (p : string) : string := fst (split_ext (name p)).
Definition suffix (p : string) : string := snd (split_ext (name p)).

(** [p.with_name(n)], also [p.parent / n]. *)
Definition with_name (p n : string) : string := dirprefix p +:+ n.

(** [p.with_suffix(sfx)] *)
Definition with_suffix (p sfx : string) : string := dirprefix p +:+ stem p +:+ sfx.

(** [p.resolve()] on a canonical absolute path. *)
Definition resolve (p : string) : string := p.

(** The components of a path, which is what pathlib compares. *)
Definition parts (p : string) : list string :=
  Str.split_on (Ascii.eqb sep) p.

Fixpoint parts_leb (xs ys : list string) : bool :=
  match xs, ys with
  | [], _ => true
  | _ :: _, [] => false
  | x :: xs', y :: ys' =>
      match String.compare x y with
      | Lt => true
      | Gt => false
      | Eq => parts_leb xs' ys'
      end
  end.

Definition path_le (p q : string) : Prop := parts_leb (parts p) (parts q) = true.

#[global] Instance path_le_dec p q : Decision (path_le p q).
Proof. unfold path_le. apply _. Defined.

End PathLib.

(** ** The file system and the outside world *)

Record File := mkFile {
  data : list byte;      (* the bytes on disk *)
  readable : bool        (* whether [open(..., "rb")] succeeds *)
}.

(** One entry of ffprobe's ["streams"] array; an absent key is [None]. *)
Record Stream := mkStream {
  codec_name : option string;
  stream_width : option Z;
  stream_height : option Z;
  stream_color_transfer : option string;
  stream_pix_fmt : option string;
  tag_language : option string
}.

(** What one ffprobe call gives back to [run_ffprobe]. *)
Inductive probe_result :=
| ProbeTimeout                        (* subprocess.TimeoutExpired after 30s *)
| ProbeMalformed                      (* exit 0, output is not JSON *)
| ProbeStreams (l : list Stream).     (* the ["streams"] list; [] when the
                                         exit status is non-zero or the key
                                         is missing *)

(** What one ffmpeg call does: its exit status, or a timeout, and the bytes
    it left at its output path, if any. *)
Inductive proc_result :=
| Exited (returncode : Z) (written : option (list byte))
| TimedOut (written : option (list byte)).

Record World := mkWorld {
  windows : bool;                                   (* os.rename refuses an existing target *)
  sha256_hex : list byte -> string;                 (* hashlib.sha256(b).hexdigest() *)
  fnmatch : string -> string -> bool;               (* glob pattern against a file name *)
  ffprobe : string -> string -> list byte -> probe_result;
  ffmpeg : list string -> gmap string File -> proc_result;
  strftime_now : nat -> string;                     (* datetime.now().strftime('%Y%m%d_%H%M%S') *)
  uuid4_hex8 : nat -> string;                       (* uuid4().hex[:8] *)
  LANGDETECT_AVAILABLE : bool;
  detect : string -> option string;                 (* langdetect.detect; None when it raises *)
  SKIP_4K_OR_HDR : bool;
  DIRECTORIES : list string
}.

Inductive exn :=
| OSError (p : string)
| FileExistsError (p : string)
| TimeoutExpired (cmd : list string)
| JSONDecodeError.

Inductive strategy := GPU | CPU.

Inductive log_line :=
| LogSkipAlreadyProcessed
| LogDuplicate
| LogProcessing
| LogNoValidStreams
| LogDetected4kHdr
| LogAlreadyOptimized
| LogConverted
| LogConversionFailed
| LogGpuTimedOut
| LogCpuTimedOut
| LogDeletedTemp
| LogDeleteTempFailed
| LogExtractedSubtitle
| LogSubtitleFailed
| LogExtractedImageSubtitle
| LogRenamedSubtitle
| LogDetectionFailed.

Inductive event :=
| EvLog (l : log_line) (p : string)
| EvUnlink (p : string)
| EvRename (src dst : string)
| EvProbe (stream_type : string) (p : string)
| EvEncode (st : strategy) (cmd : list string)
| EvExtract (cmd : list string).

#[global] Instance strategy_eq_dec : EqDecision strategy.
Proof. solve_decision. Defined.
#[global] Instance log_line_eq_dec : EqDecision log_line.
Proof. solve_decision. Defined.
#[global] Instance event_eq_dec : EqDecision event.
Proof. solve_decision. Defined.

Record State := mkState {
  fs : gmap string File;
  processed_set : gset string;
  processed_hashes : gset string;
  clock : nat;                  (* calls made so far to the clock and uuid4 *)
  trace : list event
}.

Inductive result (A : Type) :=
| Ok (a : A) (s : State)
| Raise (e : exn) (s : State).
Arguments Ok {A} a s.
Arguments Raise {A} e s.

Definition M (A : Type) : Type := State -> result A.

Definition ret {A} (a : A) : M A := fun s => Ok a s.

Definition bind {A B} (m : M A) (k : A -> M B) : M B :=
  fun s => match m s with
           | Ok a s' => k a s'
           | Raise e s' => Raise e s'
           end.

Definition raise {A} (e : exn) : M A := fun s => Raise e s.

(** [try: m  except: h] for a handler that catches every exception. *)
Definition try_catch {A} (m : M A) (h : exn -> M A) : M A :=
  fun s => match m s with
           | Ok a s' => Ok a s'
           | Raise e s' => h e s'
           end.

Declare Scope prog_scope.
Delimit Scope prog_scope with prog.
Notation "x <- m ;; k" := (bind m (fun x => k))
  (at level 100, m at next level, right associativity) : prog_scope.
Notation "m ;;; k" := (bind m (fun _ => k))
  (at level 100, right associativity) : prog_scope.
Local Open Scope prog_scope.

Definition state_of {A} (r : result A) : State :=
  match r with Ok _ s => s | Raise _ s => s end.

(** *** Primitive actions *)

Definition emit (e : event) : M unit :=
  fun s => Ok tt (mkState (fs s) (processed_set s) (processed_hashes s) (clock s)
                          (trace s ++ [e])).

Definition log (l : log_line) (p : string) : M unit := emit (EvLog l p).

Definition get_fs : M (gmap string File) := fun s => Ok (fs s) s.

Definition set_fs (f : gmap string File) : M unit :=
  fun s => Ok tt (mkState f (processed_set s) (processed_hashes s) (clock s) (trace s)).

(** [p.exists()] / [p.is_file()] *)
Definition exists_ (p : string) : M bool :=
  fun s => Ok (bool_decide (is_Some (fs s !! p))) s.

(** [processed_set.add(x)] *)
Definition processed_add (x : string) : M unit :=
  fun s => Ok tt (mkState (fs s) ({[x]} ∪ processed_set s) (processed_hashes s)
                          (clock s) (trace s)).

(** [processed_hashes.add(h)] *)
Definition hashes_add (h : string) : M unit :=
  fun s => Ok tt (mkState (fs s) (processed_set s) ({[h]} ∪ processed_hashes s)
                          (clock s) (trace s)).

Definition in_processed (x : string) : M bool :=
  fun s => Ok (bool_decide (x ∈ processed_set s)) s.

Definition in_hashes (h : string) : M bool :=
  fun s => Ok (bool_decide (h ∈ processed_hashes s)) s.

(** [p.unlink()]: raises when the file is not there. *)
Definition unlink (p : string) : M unit :=
  fun s => match fs s !! p with
           | Some _ =>
               Ok tt (mkState (delete p (fs s)) (processed_set s) (processed_hashes s)
                              (clock s) (trace s ++ [EvUnlink p]))
           | None => Raise (OSError p) s
           end.

(** [src.rename(dst)]: replaces an existing target on POSIX, raises
    [FileExistsError] on Windows. *)
Definition rename (W : World) (src dst : string) : M unit :=
  fun s => match fs s !! src with
           | None => Raise (OSError src) s
           | Some f =>
               if windows W && bool_decide (is_Some (fs s !! dst))
               then Raise (FileExistsError dst) s
               else Ok tt (mkState (<[dst := f]> (delete src (fs s)))
                                   (processed_set s) (processed_hashes s)
                                   (clock s) (trace s ++ [EvRename src dst]))
           end.

(** The bytes an external tool leaves at [out]. *)
Definition write_output (out : string) (written : option (list byte))
    (f : gmap string File) : gmap string File :=
  match written with
  | Some b => <[out := mkFile b true]> f
  | None => f
  end.

(** ** Configuration constants *)

Definition FFMPEG : string := "ffmpeg".
Definition FFPROBE : string := "ffprobe".

(** Codec name to sidecar extension, for text subtitles. *)
Definition TEXT_CODECS : list (string * string) :=
  [("subrip", "srt"); ("ass", "ass"); ("ssa", "ass"); ("mov_text", "srt");
   ("webvtt", "srt")].

Definition in_TEXT_CODECS (codec : string) : bool :=
  bool_decide (codec ∈ TEXT_CODECS.*1).

(** ** Utility functions *)

(** [f.read(n)]: the next chunk and what is left of the file. *)
Fixpoint read (n : N) (l : list byte) : list byte * list byte :=
  match l with
  | [] => ([], [])
  | b :: l' =>
      if (n =? 0)%N then ([], l)
      else let '(chunk, rest) := read (N.pred n) l' in (b :: chunk, rest)
  end.

(** The loop of [compute_file_hash]: [fed] collects the chunks passed to
    [update], [pos] is [f.tell()].  Every round consumes at least one byte,
    so [length rest + 1] rounds are always enough. *)
Fixpoint hash_loop (fuel : nat) (chunk_size max_bytes : N)
    (rest : list byte) (pos : N) (fed : list byte) : list byte :=
  match fuel with
  | O => fed
  | S fuel' =>
      let '(chunk, rest') := read chunk_size rest in
      match chunk with
      | [] => fed
      | _ :: _ =>
          let fed' := fed ++ chunk in
          let pos' := (pos + N.of_nat (length chunk))%N in
          if (max_bytes <=? pos')%N then fed'
          else hash_loop fuel' chunk_size max_bytes rest' pos' fed'
      end
  end.

Definition hashed_bytes (chunk_size max_bytes : N) (b : list byte) : list byte :=
  hash_loop (S (length b)) chunk_size max_bytes b 0 [].

Definition default_chunk_size : N := 8192.
Definition default_max_bytes : N := 1024 * 1024.

Definition compute_file_hash (W : World) (file : string) : M string :=
  fun s => match fs s !! file with
           | Some f =>
               if readable f
               then Ok (sha256_hex W (hashed_bytes default_chunk_size default_max_bytes (data f))) s
               else Raise (OSError file) s
           | None => Raise (OSError file) s
           end.

(** The name [get_temp_conversion_filename] builds when the clock and
    [uuid4] are asked for the [n]-th time. *)
Definition temp_name (W : World) (video_file : string) (n : nat) : string :=
  let timestamp := strftime_now W n in
  let unique_id := uuid4_hex8 W n in
  PathLib.with_name video_file
    (PathLib.stem video_file +:+ "_converted_" +:+ timestamp +:+ "_" +:+ unique_id +:+ ".mp4").

Definition get_temp_conversion_filename (W : World) (video_file : string) : M string :=
  fun s =>
    Ok (temp_name W video_file (clock s))
       (mkState (fs s) (processed_set s) (processed_hashes s) (S (clock s)) (trace s)).

(** [directory.glob(pattern)]: the entries directly inside [dir] whose name
    matches. *)
Definition glob (W : World) (dir pattern : string) (f : gmap string File) : list string :=
  filter (fun p => PathLib.dirprefix p = dir ∧ fnmatch W pattern (PathLib.name p) = true)
         (map_to_list f).*1.

Fixpoint unlink_each (temps : list string) : M unit :=
  match temps with
  | [] => ret tt
  | temp_file :: temps' =>
      try_catch (unlink temp_file ;;; log LogDeletedTemp temp_file)
                (fun _ => log LogDeleteTempFailed temp_file) ;;;
      unlink_each temps'
  end.

Definition cleanup_temp_files (W : World) (video_file : string) : M unit :=
  let temp_pattern := PathLib.stem video_file +:+ "_converted_*.mp4" in
  f <- get_fs ;;
  unlink_each (glob W (PathLib.dirprefix video_file) temp_pattern f).

(** [srt_file.read_text(encoding="utf-8", errors="ignore")], on ASCII. *)
Definition read_text (f : File) : string := string_of_list_byte (data f).

Definition maybe_guess_srt_language (W : World) (srt_file : string) : M unit :=
  f <- get_fs ;;
  match f !! srt_file with
  | None => ret tt
  | Some file =>
      if negb (LANGDETECT_AVAILABLE W) then ret tt
      else
        let text := read_text file in
        if (String.length (Str.strip text) <? 20)%nat then ret tt
        else
          match detect W text with
          | None => log LogDetectionFailed (PathLib.name srt_file)
          | Some lang =>
              let guessed := Str.lower lang in
              if String.eqb guessed "en" then ret tt
              else
                let new_name := PathLib.stem srt_file +:+ "." +:+ guessed +:+ ".srt" in
                let new_path := PathLib.with_name srt_file new_name in
                new_exists <- exists_ new_path ;;
                if new_exists then ret tt
                else try_catch
                       (rename W srt_file new_path ;;;
                        log LogRenamedSubtitle (PathLib.name srt_file))
                       (fun _ => log LogDetectionFailed (PathLib.name srt_file))
          end
  end.

(** The non-empty ["streams"] list of a query, if there is one. *)
Definition run_ffprobe (W : World) (stream_type : string) (file : string) : M (list Stream) :=
  emit (EvProbe stream_type file) ;;;
  f <- get_fs ;;
  match f !! file with
  | None => ret []
  | Some fl =>
      match ffprobe W stream_type file (data fl) with
      | ProbeTimeout =>
          raise (TimeoutExpired [FFPROBE; "-v"; "error"; "-select_streams"; stream_type;
                                 "-show_entries";
                                 "stream=codec_type,codec_name,width,height,color_transfer,pix_fmt,tags";
                                 "-of"; "json"; file])
      | ProbeMalformed => raise JSONDecodeError
      | ProbeStreams l => ret l
      end
  end.

Record Info := mkInfo {
  video_codec : string;
  audio_codec : string;
  text_sub_tracks : list (nat * string * string);
  image_sub_tracks : list (nat * string * string);
  width : Z;
  height : Z;
  color_transfer : string;
  pix_fmt : string
}.

(** The loop [for idx, stream in enumerate(subtitle_info["streams"])]. *)
Fixpoint classify_subtitles (idx : nat) (streams : list Stream)
    (text image : list (nat * string * string))
    : list (nat * string * string) * list (nat * string * string) :=
  match streams with
  | [] => (text, image)
  | stream :: streams' =>
      let codec := default "unknown" (codec_name stream) in
      let lang_tag := default "" (tag_language stream) in
      if in_TEXT_CODECS codec
      then classify_subtitles (S idx) streams' (text ++ [(idx, codec, lang_tag)]) image
      else if String.eqb codec "hdmv_pgs_subtitle"
      then classify_subtitles (S idx) streams' text (image ++ [(idx, codec, lang_tag)])
      else classify_subtitles (S idx) streams' text image
  end.

(** The [info] dictionary filled from the three query results. *)
Definition make_info (video_info audio_info subtitle_info : list Stream) : Info :=
  let '(vc, w, h, ct, pf) :=
    match video_info with
    | stream :: _ =>
        (default "unknown" (codec_name stream),
         default 0%Z (stream_width stream),
         default 0%Z (stream_height stream),
         default "" (stream_color_transfer stream),
         default "" (stream_pix_fmt stream))
    | [] => ("unknown", 0%Z, 0%Z, "", "")
    end in
  let ac :=
    match audio_info with
    | stream :: _ => default "unknown" (codec_name stream)
    | [] => "unknown"
    end in
  let '(text, image) := classify_subtitles 0 subtitle_info [] [] in
  mkInfo vc ac text image w h ct pf.

Definition check_video_info (W : World) (file : string) : M Info :=
  video_info <- run_ffprobe W "v" file ;;
  audio_info <- run_ffprobe W "a" file ;;
  subtitle_info <- run_ffprobe W "s" file ;;
  ret (make_info video_info audio_info subtitle_info).

Definition hdr_indicators : list string := ["smpte2084"; "arib-std-b67"; "pq"].

Definition is_4k_or_hdr (width height : Z) (color_transfer : string) : bool :=
  if (3840 <=? width)%Z && (2160 <=? height)%Z then true
  else bool_decide (color_transfer ∈ hdr_indicators).

(** ** The transcode executor *)

Definition passthrough_audio : list string := ["aac"; "mp3"; "ac3"].

Definition audio_args (audio_codec : string) : list string :=
  if bool_decide (audio_codec ∈ passthrough_audio)
  then ["-c:a"; "copy"]
  else ["-c:a"; "aac"; "-b:a"; "192k"].

Definition filter_args (pix_fmt : string) : list string :=
  if Str.contains "10" pix_fmt then ["-vf"; "format=yuv420p"] else [].

Definition gpu_cmd (src dst : string) (info : Info) : list string :=
  [FFMPEG; "-hide_banner"; "-y"; "-hwaccel"; "cuda"; "-i"; src]
  ++ filter_args (pix_fmt info)
  ++ ["-c:v"; "h264_nvenc"; "-preset"; "p5"; "-cq"; "20"; "-pix_fmt"; "yuv420p"]
  ++ audio_args (audio_codec info)
  ++ ["-f"; "mp4"; dst].

Definition cpu_cmd (src dst : string) (info : Info) : list string :=
  [FFMPEG; "-hide_banner"; "-y"; "-i"; src]
  ++ filter_args (pix_fmt info)
  ++ ["-c:v"; "libx264"; "-crf"; "18"; "-pix_fmt"; "yuv420p"]
  ++ audio_args (audio_codec info)
  ++ ["-f"; "mp4"; dst].

(** One [subprocess.run] of the encoder writing to [out]: the exit status,
    or [None] when the call timed out. *)
Definition run_ffmpeg (W : World) (cmd : list string) (out : string) : M (option Z) :=
  f <- get_fs ;;
  match ffmpeg W cmd f with
  | Exited rc written => set_fs (write_output out written f) ;;; ret (Some rc)
  | TimedOut written => set_fs (write_output out written f) ;;; ret None
  end.

Definition convert_to_mp4 (W : World) (src dst : string) (info : Info) : M bool :=
  let gpu := gpu_cmd src dst info in
  emit (EvEncode GPU gpu) ;;;
  gpu_result <- run_ffmpeg W gpu dst ;;
  match gpu_result with
  | None =>
      log LogGpuTimedOut (PathLib.name src) ;;;
      ret false
  | Some rc =>
      dst_exists <- exists_ dst ;;
      if Z.eqb rc 0 && dst_exists then ret true
      else
        let cpu := cpu_cmd src dst info in
        emit (EvEncode CPU cpu) ;;;
        cpu_result <- run_ffmpeg W cpu dst ;;
        match cpu_result with
        | None =>
            log LogCpuTimedOut (PathLib.name src) ;;;
            ret false
        | Some rc' =>
            dst_exists' <- exists_ dst ;;
            ret (Z.eqb rc' 0 && dst_exists')
        end
  end.

(** ** The subtitle extractor *)

(** [lang_tag or f'track{track_index}'] *)
Definition track_label (track_index : nat) (lang_tag : string) : string :=
  if Str.truthy lang_tag then lang_tag else "track" +:+ pretty track_index.

Definition text_sub_cmd (video_file : string) (track_index : nat) (out_path : string)
    : list string :=
  [FFMPEG; "-hide_banner"; "-y"; "-i"; video_file; "-map"; "0:" +:+ pretty track_index;
   "-c:s"; "srt"; out_path].

Definition image_sub_cmd (video_file : string) (track_index : nat) (out_path : string)
    : list string :=
  [FFMPEG; "-hide_banner"; "-y"; "-i"; video_file; "-map"; "0:" +:+ pretty track_index;
   out_path].

(** [subprocess.run(cmd, timeout=120)] followed by
    [returncode == 0 and out_path.exists() and out_path.stat().st_size > 0];
    the timeout is not caught. *)
Definition run_extraction (W : World) (cmd : list string) (out_path : string) : M bool :=
  emit (EvExtract cmd) ;;;
  r <- run_ffmpeg W cmd out_path ;;
  match r with
  | None => raise (TimeoutExpired cmd)
  | Some rc =>
      f <- get_fs ;;
      ret (Z.eqb rc 0 &&
           match f !! out_path with
           | Some file => negb (Nat.eqb (length (data file)) 0)
           | None => false
           end)
  end.

Fixpoint extract_text_subs_if_any (W : World) (video_file : string)
    (text_sub_tracks : list (nat * string * string)) : M unit :=
  match text_sub_tracks with
  | [] => ret tt
  | (track_index, codec, lang_tag) :: tracks' =>
      let out_name :=
        PathLib.stem video_file +:+ "." +:+ track_label track_index lang_tag +:+ ".srt" in
      let out_path := PathLib.with_name video_file out_name in
      already <- exists_ out_path ;;
      (if already then ret tt
       else
         ok <- run_extraction W (text_sub_cmd video_file track_index out_path) out_path ;;
         if ok then
           log LogExtractedSubtitle (PathLib.name out_path) ;;;
           if negb (Str.truthy lang_tag) && LANGDETECT_AVAILABLE W
           then maybe_guess_srt_language W out_path
           else ret tt
         else log LogSubtitleFailed (PathLib.name video_file)) ;;;
      extract_text_subs_if_any W video_file tracks'
  end.

Fixpoint extract_image_subs_if_any (W : World) (video_file : string)
    (image_sub_tracks : list (nat * string * string)) : M unit :=
  match image_sub_tracks with
  | [] => ret tt
  | (track_index, codec, lang_tag) :: tracks' =>
      let out_name :=
        PathLib.stem video_file +:+ "." +:+ track_label track_index lang_tag +:+ ".sup" in
      let out_path := PathLib.with_name video_file out_name in
      already <- exists_ out_path ;;
      (if already then ret tt
       else
         ok <- run_extraction W (image_sub_cmd video_file track_index out_path) out_path ;;
         if ok then log LogExtractedImageSubtitle (PathLib.name out_path) else ret tt) ;;;
      extract_image_subs_if_any W video_file tracks'
  end.

(** ** The per-file pipeline *)

(** The test that a file already has the target profile. *)
Definition already_optimized (video_file : string) (info : Info) : bool :=
  String.eqb (video_codec info) "h264"
  && bool_decide (audio_codec info ∈ passthrough_audio)
  && String.eqb (Str.lower (PathLib.suffix video_file)) ".mp4".

(** The tail shared by the already-optimized and the converted branch. *)
Definition extract_and_mark (W : World) (original_path_str final_file : string)
    (info : Info) : M unit :=
  (match text_sub_tracks info with
   | [] => ret tt
   | _ :: _ => extract_text_subs_if_any W final_file (text_sub_tracks info)
   end) ;;;
  (match image_sub_tracks info with
   | [] => ret tt
   | _ :: _ => extract_image_subs_if_any W final_file (image_sub_tracks info)
   end) ;;;
  processed_add original_path_str ;;;
  processed_add (PathLib.resolve final_file).

(** The part of [process_video] that follows the first probe: the policy
    checks, the conversion and the subtitle extraction. *)
Definition process_probed (W : World) (video_file : string) (info : Info) : M unit :=
  let original_path_str := PathLib.resolve video_file in
  if String.eqb (video_codec info) "unknown" && String.eqb (audio_codec info) "unknown"
  then
    log LogNoValidStreams (PathLib.name video_file) ;;;
    processed_add original_path_str
  else if SKIP_4K_OR_HDR W && is_4k_or_hdr (width info) (height info) (color_transfer info)
  then
    log LogDetected4kHdr (PathLib.name video_file) ;;;
    processed_add original_path_str
  else if already_optimized video_file info
  then
    log LogAlreadyOptimized (PathLib.name video_file) ;;;
    extract_and_mark W original_path_str video_file info
  else
    temp_mp4_path <- get_temp_conversion_filename W video_file ;;
    converted <- convert_to_mp4 W video_file temp_mp4_path info ;;
    if converted then
      unlink video_file ;;;
      let final_file := PathLib.with_suffix video_file ".mp4" in
      rename W temp_mp4_path final_file ;;;
      log LogConverted (PathLib.name final_file) ;;;
      info' <- check_video_info W final_file ;;
      extract_and_mark W original_path_str final_file info'
    else
      log LogConversionFailed (PathLib.name video_file) ;;;
      processed_add original_path_str.

(** [process_video]; the arguments [idx] and [total] of the source only
    feed log text and are left out. *)
Definition process_video (W : World) (video_file : string) : M unit :=
  let original_path_str := PathLib.resolve video_file in
  seen <- in_processed original_path_str ;;
  if seen then log LogSkipAlreadyProcessed (PathLib.name video_file)
  else
    cleanup_temp_files W video_file ;;;
    file_hash <- compute_file_hash W video_file ;;
    dup <- in_hashes file_hash ;;
    if Str.truthy file_hash && dup then
      log LogDuplicate (PathLib.name video_file) ;;;
      unlink video_file ;;;
      processed_add original_path_str
    else
      (if Str.truthy file_hash then hashes_add file_hash else ret tt) ;;;
      log LogProcessing (PathLib.name video_file) ;;;
      info <- check_video_info W video_file ;;
      process_probed W video_file info.

(** ** Scanning and the state files *)

Definition video_exts : list string := [".mkv"; ".mp4"; ".avi"; ".mov"; ".flv"; ".wmv"].

(** [base_path.rglob(pattern)]: every entry below [directory] whose name
    matches. *)
Definition rglob (W : World) (directory pattern : string) (f : gmap string File)
    : list string :=
  filter (fun p => String.prefix (directory +:+ String PathLib.sep EmptyString) p = true
                   ∧ fnmatch W pattern (PathLib.name p) = true)
         (map_to_list f).*1.

Definition scan_video_files (W : World) (directories : list string)
    (f : gmap string File) : list string :=
  merge_sort PathLib.path_le
    (directory ← directories; ext ← video_exts; rglob W directory ("*" +:+ ext) f).

Definition newline : string := String (ascii_of_N 10) EmptyString.

(** The set read by [load_processed_list] and [load_hash_db]; a missing
    file is the empty set. *)
Definition load_lines (content : option string) : gset string :=
  match content with
  | None => ∅
  | Some c =>
      list_to_set (filter (fun line => Str.truthy line = true)
                          (Str.strip <$> Str.split_on Str.is_newline c))
  end.

(** The text written by [save_processed_list] and [save_hash_db]. *)
Definition save_lines (items : gset string) : string :=
  foldr (fun item rest => item +:+ newline +:+ rest) EmptyString
        (merge_sort String.le (elements items)).

Record Disk := mkDisk {
  library : gmap string File;        (* the media tree *)
  processed_txt : option string;     (* PROCESSED_LIST_PATH *)
  hashes_db_txt : option string      (* HASHES_DB_PATH *)
}.

Definition load_processed_list (d : Disk) : gset string := load_lines (processed_txt d).
Definition load_hash_db (d : Disk) : gset string := load_lines (hashes_db_txt d).

(** The pool: every submitted file is processed, also after one of them has
    raised; the first exception is the one [future.result()] re-raises. *)
Fixpoint run_pool (W : World) (videos : list string) (s : State) : option exn * State :=
  match videos with
  | [] => (None, s)
  | video_file :: videos' =>
      match process_video W video_file s with
      | Ok _ s' => run_pool W videos' s'
      | Raise e s' => (Some e, snd (run_pool W videos' s'))
      end
  end.

Inductive outcome :=
| NoVideoFiles            (* early return, nothing loaded or saved *)
| Completed               (* both state files rewritten *)
| Aborted (e : exn).      (* an exception left [main]; nothing saved *)

Record Run := mkRun {
  run_outcome : outcome;
  run_disk : Disk;
  run_state : State       (* the in-memory sets and the trace at exit *)
}.

Definition main (W : World) (d : Disk) : Run :=
  let all_videos := scan_video_files W (DIRECTORIES W) (library d) in
  match all_videos with
  | [] => mkRun NoVideoFiles d (mkState (library d) ∅ ∅ 0 [])
  | _ :: _ =>
      let s0 := mkState (library d) (load_processed_list d) (load_hash_db d) 0 [] in
      match run_pool W all_videos s0 with
      | (Some e, s) => mkRun (Aborted e) (mkDisk (fs s) (processed_txt d) (hashes_db_txt d)) s
      | (None, s) =>
          mkRun Completed
                (mkDisk (fs s) (Some (save_lines (processed_set s)))
                        (Some (save_lines (processed_hashes s))))
                s
      end
  end.

(** ** Observations used to state the properties *)

(** The digest [compute_file_hash] returns for a file it can open. *)
Definition fingerprint (W : World) (f : File) : string :=
  sha256_hex W (hashed_bytes default_chunk_size default_max_bytes (data f)).

Definition is_encode (e : event) : bool :=
  match e with EvEncode _ _ => true | _ => false end.

Definition is_extract (e : event) : bool :=
  match e with EvExtract _ => true | _ => false end.

Definition is_probe (e : event) : bool :=
  match e with EvProbe _ _ => true | _ => false end.

Definition is_log (e : event) : bool :=
  match e with EvLog _ _ => true | _ => false end.

(** The event deletes, moves or replaces the path [p]. *)
Definition touches (p : string) (e : event) : bool :=
  match e with
  | EvUnlink q => bool_decide (q = p)
  | EvRename a b => bool_decide (a = p) || bool_decide (b = p)
  | _ => false
  end.

(** What a computation may have done between two states: the sets only
    grow, the clock only advances, files outside [touch] are as they were,
    and the trace grew by events satisfying [ev]. *)
Record effects (touch : string -> Prop) (ev : event -> Prop) (s s' : State) : Prop :=
  mkEffects {
    eff_processed : processed_set s ⊆ processed_set s';
    eff_hashes : processed_hashes s ⊆ processed_hashes s';
    eff_fs : forall q, ¬ touch q -> fs s' !! q = fs s !! q;
    eff_trace : exists evs, trace s' = trace s ++ evs ∧ Forall ev evs
  }.

(** [m] has at most the effects [touch] and [ev], whether it returns or
    raises. *)
Definition does {A} (touch : string -> Prop) (ev : event -> Prop) (m : M A) : Prop :=
  forall s, effects touch ev s (state_of (m s)).

(** The events appended to the trace between [s] and [s']. *)
Definition new_events (s s' : State) : list event :=
  drop (length (trace s)) (trace s').

(** A subtitle sidecar path: the only paths the extractor writes. *)
Definition is_sidecar (q : string) : Prop :=
  Str.endswith q ".srt" = true ∨ Str.endswith q ".sup" = true.

(** What the extractor adds to the trace. *)
Definition sub_event (e : event) : Prop :=
  match e with
  | EvLog _ _ | EvExtract _ => True
  | EvRename a b => is_sidecar a ∧ is_sidecar b
  | _ => False
  end.

(** A glob match of [cleanup_temp_files video_file]. *)
Definition is_temp_of (W : World) (video_file q : string) : Prop :=
  PathLib.dirprefix q = PathLib.dirprefix video_file
  ∧ fnmatch W (PathLib.stem video_file +:+ "_converted_*.mp4") (PathLib.name q) = true.

(** What the cleanup adds to the trace. *)
Definition cleanup_event (W : World) (video_file : string) (e : event) : Prop :=
  match e with
  | EvLog LogDeletedTemp _ | EvLog LogDeleteTempFailed _ => True
  | EvUnlink q => is_temp_of W video_file q
  | _ => False
  end.

(** A cleanup event seen from the file system [f] it leaves behind: what
    was unlinked is gone. *)
Definition removal_event (f : gmap string File) (e : event) : Prop :=
  match e with
  | EvLog LogDeletedTemp _ | EvLog LogDeleteTempFailed _ => True
  | EvUnlink q => f !! q = None
  | _ => False
  end.

(** What a state file holds when it is read back: stripped, non-empty,
    single-line entries. *)
Definition line_safe (x : string) : Prop :=
  Str.strip x = x ∧ Str.truthy x = true
  ∧ Str.forallb_str (λ c, negb (Str.is_newline c)) x = true.



(** *** The Policy Engine of the specification

    Written from the words of the specification (section 4.3), to be
    compared with what [process_video] does. *)

Inductive skip_reason :=
| AlreadyProcessed | Duplicate | Unprobeable | Policy4kHdr | AlreadyOptimal.

Inductive action := Skip (r : skip_reason) | Convert.

#[global] Instance skip_reason_eq_dec : EqDecision skip_reason.
Proof. solve_decision. Defined.
#[global] Instance action_eq_dec : EqDecision action.
Proof. solve_decision. Defined.

Definition spec_decide (policy_flag : bool) (identity : string) (profile : Info)
    (fingerprint : string) (handled_identities seen_fingerprints : gset string) : action :=
  if bool_decide (identity ∈ handled_identities) then Skip AlreadyProcessed
  else if bool_decide (fingerprint ∈ seen_fingerprints) then Skip Duplicate
  else if String.eqb (video_codec profile) "unknown"
          && String.eqb (audio_codec profile) "unknown" then Skip Unprobeable
  else if policy_flag
          && (((3840 <=? width profile)%Z && (2160 <=? height profile)%Z)
              || bool_decide (color_transfer profile ∈ ["smpte2084"; "arib-std-b67"; "pq"]))
       then Skip Policy4kHdr
  else if String.eqb (video_codec profile) "h264"
          && bool_decide (audio_codec profile ∈ ["aac"; "mp3"; "ac3"])
          && String.eqb (Str.lower (PathLib.suffix identity)) ".mp4"
       then Skip AlreadyOptimal
  else Convert.

(** The decision a trace shows: each skip has its log line, a conversion
    shows as the first encoder call. *)
Definition decision_of_event (e : event) : option action :=
  match e with
  | EvLog LogSkipAlreadyProcessed _ => Some (Skip AlreadyProcessed)
  | EvLog LogDuplicate _ => Some (Skip Duplicate)
  | EvLog LogNoValidStreams _ => Some (Skip Unprobeable)
  | EvLog LogDetected4kHdr _ => Some (Skip Policy4kHdr)
  | EvLog LogAlreadyOptimized _ => Some (Skip AlreadyOptimal)
  | EvEncode _ _ => Some Convert
  | _ => None
  end.

Fixpoint decision_of (evs : list event) : option action :=
  match evs with
  | [] => None
  | e :: evs' =>
      match decision_of_event e with
      | Some a => Some a
      | None => decision_of evs'
      end
  end.

(** *** The Transcode Executor, as the specification words it *)

(** The GPU attempt failed: it timed out, exited non-zero or left no output
    file. *)
Definition gpu_attempt_failed (W : World) (src dst : string) (info : Info) (s : State)
    : Prop :=
  match ffmpeg W (gpu_cmd src dst info) (fs s) with
  | TimedOut _ => True
  | Exited rc written => rc ≠ 0%Z ∨ write_output dst written (fs s) !! dst = None
  end.

(** The CPU strategy was run during [convert_to_mp4]. *)
Definition cpu_attempted (W : World) (src dst : string) (info : Info) (s : State) : Prop :=
  EvEncode CPU (cpu_cmd src dst info)
    ∈ new_events s (state_of (convert_to_mp4 W src dst info s)).

(** "The CPU strategy runs whenever the GPU strategy exits non-zero, times
    out, or produces no output file." *)
Definition fallback_on_any_gpu_failure (W : World) (src dst : string) (info : Info)
    (s : State) : Prop :=
  gpu_attempt_failed W src dst info s → cpu_attempted W src dst info s.

(** Conversion fails on the library [f]: the GPU strategy times out, or it
    fails and the CPU strategy fails or times out as well. *)
Definition conversion_fails (W : World) (src dst : string) (info : Info)
    (f : gmap string File) : Prop :=
  match ffmpeg W (gpu_cmd src dst info) f with
  | TimedOut _ => True
  | Exited rc written =>
      let f' := write_output dst written f in
      (rc ≠ 0%Z ∨ f' !! dst = None)
      ∧ match ffmpeg W (cpu_cmd src dst info) f' with
        | TimedOut _ => True
        | Exited rc' written' => rc' ≠ 0%Z ∨ write_output dst written' f' !! dst = None
        end
  end.

(** "Every Skip outcome other than Skip(duplicate) results in the identity
    being added to handled_identities without further action": nothing on
    disk changes, no fingerprint is recorded, no tool other than the prober
    runs. *)
Definition skip_only_marks_handled (W : World) (p : string) (s : State) : Prop :=
  let s' := state_of (process_video W p s) in
  forall reason,
    reason ≠ Duplicate ->
    decision_of (new_events s s') = Some (Skip reason) ->
    fs s' = fs s
    ∧ processed_set s' = {[p]} ∪ processed_set s
    ∧ processed_hashes s' = processed_hashes s
    ∧ Forall (fun e => is_encode e = false ∧ is_extract e = false) (new_events s s').


(** *** What a computation leaves as it is *)

(** A view of the state that depends on the two sets only. *)
Definition sets_only {B} (proj : State -> B) : Prop :=
  forall f ps ph c t f' c' t',
    proj (mkState f ps ph c t) = proj (mkState f' ps ph c' t').

(** [m] leaves [proj] of the state as it is, whether it returns or raises. *)
Definition preserves {A B} (proj : State -> B) (m : M A) : Prop :=
  forall s, proj (state_of (m s)) = proj s.

(** How one call of [process_video] on [p] may end, given the handled set
    [X] it started from: if it returns, [p] is handled and nothing but [p]
    and [final] was added; if it raises, the handled set is [X]. *)
Definition marked {A} (p final : string) (X : gset string) (r : result A) : Prop :=
  match r with
  | Ok _ s' => p ∈ processed_set s' ∧ processed_set s' ⊆ {[p]} ∪ {[final]} ∪ X
  | Raise _ s' => processed_set s' = X
  end.

(** The paths one call of [process_video] on [p] may write, delete or
    rename: the file itself, its final [.mp4], a temporary conversion file
    of its own, a leftover temporary file, or a subtitle sidecar. *)
Definition own_path (W : World) (p q : string) : Prop :=
  q = p ∨ q = PathLib.with_suffix p ".mp4" ∨ (exists n, q = temp_name W p n)
  ∨ is_temp_of W p q ∨ is_sidecar q.

(** The extractor call reads [file]: its argument after ["-i"]. *)
Definition reads_from (file : string) (e : event) : Prop :=
  match e with
  | EvExtract cmd => cmd !! 4%nat = Some file
  | _ => True
  end.

(** The actions one call of [process_video] on [p] may take: it unlinks
    the file or a leftover temporary file of it, renames sidecars or its own
    conversion to the final path, probes the file or the final path, encodes
    from the file into a temporary name of its own, and extracts from the
    file or the final path. *)
Definition own_event (W : World) (p : string) (e : event) : Prop :=
  let final := PathLib.with_suffix p ".mp4" in
  match e with
  | EvLog _ _ => True
  | EvUnlink q => q = p ∨ is_temp_of W p q
  | EvRename a b =>
      (is_sidecar a ∧ is_sidecar b) ∨ ((exists n, a = temp_name W p n) ∧ b = final)
  | EvProbe _ q => q = p ∨ q = final
  | EvEncode st cmd =>
      exists n info,
        cmd = match st with GPU => gpu_cmd | CPU => cpu_cmd end p (temp_name W p n) info
  | EvExtract cmd => cmd !! 4%nat = Some p ∨ cmd !! 4%nat = Some final
  end.

(** The file a conversion that succeeds leaves at [dst]: the output of the
    GPU strategy when it exits with status 0 and the output exists, else
    that of the CPU strategy under the same condition. *)
Definition conversion_output (W : World) (src dst : string) (info : Info)
    (f : gmap string File) : option File :=
  match ffmpeg W (gpu_cmd src dst info) f with
  | TimedOut _ => None
  | Exited rc written =>
      let f' := write_output dst written f in
      if Z.eqb rc 0 && bool_decide (is_Some (f' !! dst)) then f' !! dst
      else match ffmpeg W (cpu_cmd src dst info) f' with
           | TimedOut _ => None
           | Exited rc' written' =>
               let f'' := write_output dst written' f' in
               if Z.eqb rc' 0 && bool_decide (is_Some (f'' !! dst)) then f'' !! dst
               else None
           end
  end.

(** ** A small concrete world, for examples *)

Module Demo.

Definition digest (b : list byte) : string := "sha256:" +:+ string_of_list_byte b.

(** Glob matching for patterns with one [*] and no other wildcard. *)
Definition star_match (pattern name : string) : bool :=
  match Str.rsplit "*"%char pattern with
  | Some (pre, post) =>
      String.prefix pre name && Str.endswith name post
      && (String.length pre + String.length post <=? String.length name)%nat
  | None => String.eqb pattern name
  end.

Definition stream (codec : string) (w h : Z) (lang : option string) : Stream :=
  mkStream (Some codec) (Some w) (Some h) None (Some "yuv420p") lang.

(** The first byte of a file tells what the prober reports:
    1 is 720p HEVC/AC3 with an English SubRip track,
    2 is 1080p H.264/AAC with an English SubRip track,
    3 is 2160p HEVC/AC3, 4 is 1080p H.264/AAC without subtitles;
    anything else has no streams. *)
Definition probe (stream_type path : string) (content : list byte) : probe_result :=
  let kind := match content with b :: _ => Byte.to_N b | [] => 0%N end in
  if String.eqb stream_type "v" then
    if (kind =? 1)%N then ProbeStreams [stream "hevc" 1280 720 None]
    else if (kind =? 2)%N || (kind =? 4)%N then ProbeStreams [stream "h264" 1920 1080 None]
    else if (kind =? 3)%N then ProbeStreams [stream "hevc" 3840 2160 None]
    else ProbeStreams []
  else if String.eqb stream_type "a" then
    if (kind =? 1)%N || (kind =? 3)%N then ProbeStreams [stream "ac3" 0 0 None]
    else if (kind =? 2)%N || (kind =? 4)%N then ProbeStreams [stream "aac" 0 0 None]
    else ProbeStreams []
  else
    if (kind =? 1)%N || (kind =? 2)%N
    then ProbeStreams [stream "subrip" 0 0 (Some "eng")]
    else ProbeStreams [].

(** An encoder whose three kinds of call always end the same way. *)
Definition encoder (gpu cpu extract : proc_result) (cmd : list string)
    (f : gmap string File) : proc_result :=
  if bool_decide ("h264_nvenc" ∈ cmd) then gpu
  else if bool_decide ("libx264" ∈ cmd) then cpu
  else extract.

Definition world (gpu cpu extract : proc_result) : World :=
  mkWorld false digest star_match probe (encoder gpu cpu extract)
          (fun _ => "20240101_120000") (fun n => "0000000" +:+ pretty n)
          false (fun _ => None) true ["/tv"].

Definition converted : list byte := ["004"%byte; "255"%byte].
Definition partial : list byte := ["004"%byte].
Definition subtitle : list byte := ["049"%byte; "010"%byte].

Definition start (f : gmap string File) : State := mkState f ∅ ∅ 0 [].

(** A library with one 720p HEVC file, and the profile probed for it. *)
Definition hevc_file : File := mkFile ["001"%byte; "002"%byte] true.
Definition hevc_info : Info :=
  make_info [stream "hevc" 1280 720 None] [stream "ac3" 0 0 None]
            [stream "subrip" 0 0 (Some "eng")].

(** The GPU encoder hangs until the timeout; the CPU encoder would work. *)
Definition gpu_hangs : World :=
  world (TimedOut (Some partial)) (Exited 0 (Some converted)) (Exited 0 (Some subtitle)).

(** Both encoders fail on every source; the CPU attempt leaves a partial
    output file behind. *)
Definition encoders_fail : World :=
  world (Exited 1 None) (Exited 1 (Some partial)) (Exited 0 (Some subtitle)).

(** A file that cannot be opened, next to a 2160p file. *)
Definition locked_file : File := mkFile ["001"%byte] false.
Definition uhd_file : File := mkFile ["003"%byte] true.

Definition locked_library : Disk :=
  mkDisk {[ "/tv/a.mkv" := locked_file; "/tv/b.mkv" := uhd_file ]} None None.

Definition hevc_library : Disk :=
  mkDisk {[ "/tv/a.mkv" := hevc_file ]} None None.

(** Every tool works. *)
Definition all_well : World :=
  world (Exited 0 (Some converted)) (Exited 0 (Some converted)) (Exited 0 (Some subtitle)).

(** A 1080p H.264/AAC file with an English SubRip track. *)
Definition h264_file : File := mkFile ["002"%byte; "007"%byte] true.


End Demo.

(** * Facts about strings and paths *)

Section string_facts.

Lemma str_app_cons a (s t : string) : String a s +:+ t = String a (s +:+ t).
Proof. reflexivity. Qed.

Lemma str_app_nil_l (t : string) : "" +:+ t = t.
Proof. reflexivity. Qed.

Lemma str_app_nil_r (s : string) : s +:+ "" = s.
Proof. induction s as [|a s IH]; [done|]. by rewrite str_app_cons, IH. Qed.

Lemma str_app_assoc (s t u : string) : (s +:+ t) +:+ u = s +:+ (t +:+ u).
Proof. induction s as [|a s IH]; [done|]. by rewrite !str_app_cons, IH. Qed.

Lemma str_length_app (s t : string) :
  String.length (s +:+ t) = String.length s + String.length t.
Proof. induction s as [|a s IH]; [done|]. rewrite str_app_cons. simpl. by rewrite IH. Qed.

Lemma rsplit_spec c s l r : Str.rsplit c s = Some (l, r) → s = l +:+ String c r.
Proof.
  revert l r. induction s as [|a s IH]; intros l r H; simpl in H; [done|].
  destruct (Str.rsplit c s) as [[l' r']|] eqn:E.
  - simplify_eq. rewrite str_app_cons. f_equal. by apply IH.
  - destruct (Ascii.eqb_spec a c); simplify_eq. done.
Qed.

Lemma path_eq_dirprefix_name p : p = PathLib.dirprefix p +:+ PathLib.name p.
Proof.
  unfold PathLib.dirprefix, PathLib.name.
  destruct (Str.rsplit PathLib.sep p) as [[l r]|] eqn:E; [|done].
  apply rsplit_spec in E. by rewrite str_app_assoc.
Qed.

Lemma name_eq_stem_suffix p : PathLib.name p = PathLib.stem p +:+ PathLib.suffix p.
Proof.
  unfold PathLib.stem, PathLib.suffix, PathLib.split_ext.
  destruct (Str.rsplit "."%char (PathLib.name p)) as [[l r]|] eqn:E; simpl;
    [|by rewrite str_app_nil_r].
  destruct (String.eqb l "" || String.eqb r ""); simpl; [by rewrite str_app_nil_r|].
  by apply rsplit_spec.
Qed.

Lemma path_eq_parts p :
  p = PathLib.dirprefix p +:+ PathLib.stem p +:+ PathLib.suffix p.
Proof. rewrite <- name_eq_stem_suffix. apply path_eq_dirprefix_name. Qed.

(** A suffix is empty or begins with a dot. *)
Lemma suffix_shape p :
  PathLib.suffix p = "" ∨ ∃ r, PathLib.suffix p = String "."%char r.
Proof.
  unfold PathLib.suffix, PathLib.split_ext.
  destruct (Str.rsplit "."%char (PathLib.name p)) as [[l r]|]; simpl; [|by left].
  destruct (String.eqb l "" || String.eqb r ""); simpl; eauto.
Qed.

Lemma endswith_app (x e : string) : Str.endswith (x +:+ e) e = true.
Proof.
  induction x as [|a x IH].
  - rewrite str_app_nil_l. destruct e; cbn [Str.endswith]; by rewrite String.eqb_refl.
  - rewrite str_app_cons. simpl. rewrite IH. apply orb_true_r.
Qed.

Lemma endswith_too_long (u e : string) :
  String.length u < String.length e → Str.endswith u e = false.
Proof.
  induction u as [|d u IHu]; intros He; cbn [Str.endswith].
  - rewrite orb_false_r. apply String.eqb_neq. intros <-. simpl in He. lia.
  - rewrite IHu by (simpl in He; lia). rewrite orb_false_r.
    apply String.eqb_neq. intros <-. lia.
Qed.

Lemma endswith_same_length (x b e : string) :
  Str.endswith (x +:+ b) e = true → String.length b = String.length e → b = e.
Proof.
  induction x as [|a x IH]; intros H Hlen.
  - rewrite str_app_nil_l in H. destruct b as [|c b]; cbn [Str.endswith] in H.
    + rewrite orb_false_r in H. by apply String.eqb_eq in H.
    + apply orb_true_iff in H as [H|H]; [by apply String.eqb_eq in H|].
      rewrite endswith_too_long in H; [done|]. simpl in Hlen. lia.
  - rewrite str_app_cons in H. cbn [Str.endswith] in H.
    apply orb_true_iff in H as [H|H]; [|auto].
    apply String.eqb_eq in H. exfalso.
    assert (String.length (String a (x +:+ b)) = String.length e) as Hl by (by rewrite H).
    simpl in Hl. rewrite str_length_app in Hl. lia.
Qed.

Lemma lower_length s : String.length (Str.lower s) = String.length s.
Proof. induction s as [|a s IH]; simpl; auto. Qed.

End string_facts.

(** * Effects of the pipeline's building blocks *)

Section effects_facts.

Context {touch : string -> Prop} {ev : event -> Prop}.

Lemma effects_refl s : effects touch ev s s.
Proof.
  split; [done..|]. exists []. by rewrite app_nil_r.
Qed.

Lemma effects_trans s1 s2 s3 :
  effects touch ev s1 s2 → effects touch ev s2 s3 → effects touch ev s1 s3.
Proof.
  intros [Hp1 Hh1 Hf1 (e1 & Ht1 & He1)] [Hp2 Hh2 Hf2 (e2 & Ht2 & He2)].
  split.
  - set_solver.
  - set_solver.
  - intros q Hq. by rewrite Hf2, Hf1.
  - exists (e1 ++ e2). split; [by rewrite Ht2, Ht1, app_assoc|].
    by apply Forall_app.
Qed.

Lemma does_ret {A} (a : A) : does touch ev (ret a).
Proof. intros s. apply effects_refl. Qed.

Lemma does_raise {A} e : does touch ev (@raise A e).
Proof. intros s. apply effects_refl. Qed.

Lemma does_bind {A B} (m : M A) (k : A → M B) :
  does touch ev m → (∀ a, does touch ev (k a)) → does touch ev (bind m k).
Proof.
  intros Hm Hk s. unfold bind. specialize (Hm s).
  destruct (m s) as [a s'|e s']; [|done].
  eapply effects_trans; [exact Hm|apply Hk].
Qed.

Lemma does_try_catch {A} (m : M A) (h : exn → M A) :
  does touch ev m → (∀ e, does touch ev (h e)) → does touch ev (try_catch m h).
Proof.
  intros Hm Hh s. unfold try_catch. specialize (Hm s).
  destruct (m s) as [a s'|e s']; [done|].
  eapply effects_trans; [exact Hm|apply Hh].
Qed.

Lemma does_emit e : ev e → does touch ev (emit e).
Proof.
  intros He s. split; simpl; [done..|]. exists [e]. split; [done|]. by constructor.
Qed.

Lemma does_log l p : ev (EvLog l p) → does touch ev (log l p).
Proof. apply does_emit. Qed.

Lemma does_get_fs : does touch ev get_fs.
Proof. intros s. apply effects_refl. Qed.

Lemma does_exists p : does touch ev (exists_ p).
Proof. intros s. apply effects_refl. Qed.

Lemma does_in_processed x : does touch ev (in_processed x).
Proof. intros s. apply effects_refl. Qed.

Lemma does_in_hashes x : does touch ev (in_hashes x).
Proof. intros s. apply effects_refl. Qed.

Lemma does_processed_add x : does touch ev (processed_add x).
Proof.
  intros s. split; simpl; [set_solver|done..|]. exists []. by rewrite app_nil_r.
Qed.

Lemma does_hashes_add x : does touch ev (hashes_add x).
Proof.
  intros s. split; simpl; [done|set_solver|done|]. exists []. by rewrite app_nil_r.
Qed.

Lemma does_unlink p : touch p → ev (EvUnlink p) → does touch ev (unlink p).
Proof.
  intros Hp He s. unfold unlink. destruct (fs s !! p) eqn:E; simpl; [|apply effects_refl].
  split; simpl; [done..| |].
  - intros q Hq. apply lookup_delete_ne. by intros ->.
  - exists [EvUnlink p]. split; [done|]. by constructor.
Qed.

Lemma does_rename W src dst :
  touch src → touch dst → ev (EvRename src dst) → does touch ev (rename W src dst).
Proof.
  intros Hs Hd He s. unfold rename.
  destruct (fs s !! src) eqn:E; simpl; [|apply effects_refl].
  destruct (windows W && bool_decide (is_Some (fs s !! dst))); simpl; [apply effects_refl|].
  split; simpl; [done..| |].
  - intros q Hq. rewrite lookup_insert_ne by (by intros ->).
    apply lookup_delete_ne. by intros ->.
  - exists [EvRename src dst]. split; [done|]. by constructor.
Qed.

Lemma does_compute_file_hash W p : does touch ev (compute_file_hash W p).
Proof.
  intros s. unfold compute_file_hash.
  destruct (fs s !! p) as [f|]; [destruct (readable f)|]; apply effects_refl.
Qed.

Lemma does_get_temp_conversion_filename W p :
  does touch ev (get_temp_conversion_filename W p).
Proof.
  intros s. split; simpl; [done..|]. exists []. by rewrite app_nil_r.
Qed.

Lemma does_run_ffmpeg W cmd out : touch out → does touch ev (run_ffmpeg W cmd out).
Proof.
  intros Ho s. unfold run_ffmpeg, bind, get_fs, set_fs, ret.
  destruct (ffmpeg W cmd (fs s)) as [rc [b|]|[b|]]; simpl;
    (split; simpl; [done..| |exists []; by rewrite app_nil_r]);
    intros q Hq; try done; apply lookup_insert_ne; by intros ->.
Qed.

End effects_facts.

Lemma effects_weaken (t1 t2 : string → Prop) (e1 e2 : event → Prop) s s' :
  (∀ q, t1 q → t2 q) → (∀ e, e1 e → e2 e) →
  effects t1 e1 s s' → effects t2 e2 s s'.
Proof.
  intros Ht He [Hp Hh Hf (evs & Htr & Hev)]. split; [done..| |].
  - intros q Hq. apply Hf. naive_solver.
  - exists evs. split; [done|]. eapply Forall_impl; eauto.
Qed.

Lemma does_weaken {A} (t1 t2 : string → Prop) (e1 e2 : event → Prop) (m : M A) :
  (∀ q, t1 q → t2 q) → (∀ e, e1 e → e2 e) → does t1 e1 m → does t2 e2 m.
Proof. intros Ht He Hm s. eapply effects_weaken; eauto. Qed.

(** One step of a proof that a program has at most given effects. *)
Ltac does_step :=
  lazymatch goal with
  | |- does _ _ (bind _ _) => apply does_bind; [|intros ?]
  | |- does _ _ (ret _) => apply does_ret
  | |- does _ _ (raise _) => apply does_raise
  | |- does _ _ (try_catch _ _) => apply does_try_catch; [|intros ?]
  | |- does _ _ (emit _) => apply does_emit
  | |- does _ _ (log _ _) => apply does_log
  | |- does _ _ get_fs => apply does_get_fs
  | |- does _ _ (exists_ _) => apply does_exists
  | |- does _ _ (in_processed _) => apply does_in_processed
  | |- does _ _ (in_hashes _) => apply does_in_hashes
  | |- does _ _ (processed_add _) => apply does_processed_add
  | |- does _ _ (hashes_add _) => apply does_hashes_add
  | |- does _ _ (unlink _) => apply does_unlink
  | |- does _ _ (rename _ _ _) => apply does_rename
  | |- does _ _ (compute_file_hash _ _) => apply does_compute_file_hash
  | |- does _ _ (get_temp_conversion_filename _ _) =>
      apply does_get_temp_conversion_filename
  | |- does _ _ (run_ffmpeg _ _ _) => apply does_run_ffmpeg
  | |- does _ _ (if ?b then _ else _) => destruct b
  | |- does _ _ (match ?x with _ => _ end) => destruct x
  end.

Ltac does_auto := repeat does_step.

Section composite_effects.

Context (W : World).

Lemma does_unlink_each touch ev temps :
  (∀ t, t ∈ temps → touch t ∧ ev (EvUnlink t)) →
  (∀ t, ev (EvLog LogDeletedTemp t) ∧ ev (EvLog LogDeleteTempFailed t)) →
  does touch ev (unlink_each temps).
Proof.
  intros Ht Hl. induction temps as [|t temps IH]; simpl; [apply does_ret|].
  assert (touch t ∧ ev (EvUnlink t)) as [??] by (apply Ht; left).
  does_auto; try done; try apply Hl.
  apply IH. intros t' Ht'. apply Ht. by right.
Qed.

Lemma elem_of_glob dir pattern f q :
  q ∈ glob W dir pattern f →
  PathLib.dirprefix q = dir ∧ fnmatch W pattern (PathLib.name q) = true.
Proof. unfold glob. rewrite list_elem_of_filter. tauto. Qed.

Lemma does_cleanup_temp_files p :
  does (is_temp_of W p) (cleanup_event W p) (cleanup_temp_files W p).
Proof.
  unfold cleanup_temp_files. does_auto.
  apply does_unlink_each; [|done].
  intros t Ht%elem_of_glob. done.
Qed.

Lemma does_run_ffprobe touch ev st file :
  ev (EvProbe st file) → does touch ev (run_ffprobe W st file).
Proof. intros He. unfold run_ffprobe. does_auto. done. Qed.

Lemma does_check_video_info file :
  does (λ _, False) (λ e, is_probe e = true) (check_video_info W file).
Proof.
  unfold check_video_info. does_auto; by apply does_run_ffprobe.
Qed.

Lemma does_convert_to_mp4 src dst info :
  does (λ q, q = dst) (λ e, is_encode e = true ∨ is_log e = true)
       (convert_to_mp4 W src dst info).
Proof. unfold convert_to_mp4. does_auto; simpl; auto. Qed.

Lemma does_run_extraction touch ev cmd out :
  touch out → ev (EvExtract cmd) → does touch ev (run_extraction W cmd out).
Proof. intros Ho He. unfold run_extraction. does_auto; done. Qed.

Lemma is_sidecar_with_name p x ext :
  ext = ".srt" ∨ ext = ".sup" → is_sidecar (PathLib.with_name p (x +:+ ext)).
Proof.
  unfold PathLib.with_name. rewrite <- str_app_assoc.
  intros [->| ->]; [left|right]; apply endswith_app.
Qed.

Lemma does_maybe_guess_srt_language srt :
  is_sidecar srt → does is_sidecar sub_event (maybe_guess_srt_language W srt).
Proof.
  intros Hs. unfold maybe_guess_srt_language.
  assert (∀ g, is_sidecar (PathLib.with_name srt (PathLib.stem srt +:+ "." +:+ g +:+ ".srt")))
    as Hnew.
  { intros g. rewrite <- !str_app_assoc. apply is_sidecar_with_name. by left. }
  does_auto; simpl; auto.
Qed.

Lemma does_extract_text_subs_if_any file tracks :
  does is_sidecar sub_event (extract_text_subs_if_any W file tracks).
Proof.
  induction tracks as [|[[i c] l] tracks IH]; simpl; [apply does_ret|].
  assert (is_sidecar (PathLib.with_name file
            (PathLib.stem file +:+ "." +:+ track_label i l +:+ ".srt"))) as Hout.
  { rewrite <- !str_app_assoc. apply is_sidecar_with_name. by left. }
  does_auto; simpl; auto.
  - by apply does_run_extraction.
  - by apply does_maybe_guess_srt_language.
Qed.

Lemma does_extract_image_subs_if_any file tracks :
  does is_sidecar sub_event (extract_image_subs_if_any W file tracks).
Proof.
  induction tracks as [|[[i c] l] tracks IH]; simpl; [apply does_ret|].
  assert (is_sidecar (PathLib.with_name file
            (PathLib.stem file +:+ "." +:+ track_label i l +:+ ".sup"))) as Hout.
  { rewrite <- !str_app_assoc. apply is_sidecar_with_name. by right. }
  does_auto; simpl; auto.
  by apply does_run_extraction.
Qed.

Lemma does_extract_and_mark original final info :
  does is_sidecar sub_event (extract_and_mark W original final info).
Proof.
  unfold extract_and_mark. does_auto.
  - apply does_extract_text_subs_if_any.
  - apply does_extract_image_subs_if_any.
Qed.

(** Whatever happens, [process_video] only adds to the two sets and to the
    trace. *)
Lemma does_process_probed p info :
  does (λ _, True) (λ _, True) (process_probed W p info).
Proof.
  unfold process_probed.
  repeat first
    [ does_step
    | eapply does_weaken; [| |apply does_check_video_info]; done
    | eapply does_weaken; [| |apply does_convert_to_mp4]; done
    | eapply does_weaken; [| |apply does_extract_and_mark]; done ]; done.
Qed.

Lemma does_process_video p :
  does (λ _, True) (λ _, True) (process_video W p).
Proof.
  unfold process_video.
  repeat first
    [ does_step
    | eapply does_weaken; [| |apply does_cleanup_temp_files]; done
    | eapply does_weaken; [| |apply does_check_video_info]; done
    | apply does_process_probed ]; done.
Qed.

End composite_effects.

(** * Running the pipeline step by step *)

Lemma bind_ok {A B} (m : M A) (k : A → M B) s a s' :
  m s = Ok a s' → bind m k s = k a s'.
Proof. unfold bind. by intros ->. Qed.

Lemma bind_raise {A B} (m : M A) (k : A → M B) s e s' :
  m s = Raise e s' → bind m k s = Raise e s'.
Proof. unfold bind. by intros ->. Qed.

(** Run the first action of a sequence whose result is known. *)
Ltac run :=
  erewrite bind_ok by (first [eassumption | reflexivity]);
  cbv beta; cbn [fs processed_set processed_hashes clock trace].

Lemma new_events_app s s' evs : trace s' = trace s ++ evs → new_events s s' = evs.
Proof. unfold new_events. intros ->. by rewrite drop_app_length. Qed.

Lemma events_of_effects touch ev s s' :
  effects touch ev s s' → trace s' = trace s ++ new_events s s' ∧ Forall ev (new_events s s').
Proof.
  intros [_ _ _ (evs & Ht & He)]. by rewrite (new_events_app _ _ _ Ht).
Qed.

Section cleanup.

Context (W : World).

(** The temp cleanup cannot fail; it only deletes files. *)
Lemma removal_event_weaken (f g : gmap string File) e :
  g ⊆ f → removal_event f e → removal_event g e.
Proof.
  intros Hsub. destruct e as [[] ?|q| | | |]; simpl; try done.
  intros Hq. by eapply lookup_weaken_None.
Qed.

Lemma unlink_attempt_ok t s :
  ∃ s1 evs, try_catch (unlink t ;;; log LogDeletedTemp t)
                  (fun _ => log LogDeleteTempFailed t) s = Ok tt s1
        ∧ processed_set s1 = processed_set s
        ∧ processed_hashes s1 = processed_hashes s
        ∧ clock s1 = clock s
        ∧ fs s1 ⊆ fs s
        ∧ trace s1 = trace s ++ evs
        ∧ Forall (removal_event (fs s1)) evs.
Proof.
  unfold try_catch, bind, unlink, log, emit.
  destruct (fs s !! t) eqn:E; simpl.
  - exists (mkState (delete t (fs s)) (processed_set s) (processed_hashes s) (clock s)
              ((trace s ++ [EvUnlink t]) ++ [EvLog LogDeletedTemp t])),
           [EvUnlink t; EvLog LogDeletedTemp t].
    simpl. repeat split; try done.
    + apply delete_subseteq.
    + by rewrite <- app_assoc.
    + repeat constructor. simpl. apply lookup_delete_eq.
  - exists (mkState (fs s) (processed_set s) (processed_hashes s) (clock s)
              (trace s ++ [EvLog LogDeleteTempFailed t])),
           [EvLog LogDeleteTempFailed t].
    simpl. repeat split; try done. by repeat constructor.
Qed.

Lemma unlink_each_ok temps s :
  ∃ s1 evs, unlink_each temps s = Ok tt s1
        ∧ processed_set s1 = processed_set s
        ∧ processed_hashes s1 = processed_hashes s
        ∧ clock s1 = clock s
        ∧ fs s1 ⊆ fs s
        ∧ trace s1 = trace s ++ evs
        ∧ Forall (removal_event (fs s1)) evs.
Proof.
  revert s. induction temps as [|t temps IH]; intros s; simpl.
  - exists s, []. rewrite app_nil_r. by repeat split.
  - destruct (unlink_attempt_ok t s) as (s0 & e0 & H0 & Hp0 & Hh0 & Hc0 & Hf0 & Ht0 & He0).
    run. destruct (IH s0) as (s1 & e1 & -> & Hp1 & Hh1 & Hc1 & Hf1 & Ht1 & He1).
    exists s1, (e0 ++ e1). repeat split; try congruence.
    + by etrans.
    + by rewrite Ht1, Ht0, app_assoc.
    + apply Forall_app. split; [|done].
      eapply Forall_impl; [exact He0|]. intros e. by apply removal_event_weaken.
Qed.

Lemma cleanup_temp_files_ok p s :
  ∃ s1 cleaned, cleanup_temp_files W p s = Ok tt s1
        ∧ processed_set s1 = processed_set s
        ∧ processed_hashes s1 = processed_hashes s
        ∧ clock s1 = clock s
        ∧ fs s1 ⊆ fs s
        ∧ trace s1 = trace s ++ cleaned
        ∧ Forall (removal_event (fs s1)) cleaned
        ∧ Forall (cleanup_event W p) cleaned
        ∧ (∀ q, ¬ is_temp_of W p q → fs s1 !! q = fs s !! q).
Proof.
  pose proof (does_cleanup_temp_files W p s) as Heff.
  unfold cleanup_temp_files in *. unfold bind at 1 in Heff. unfold bind at 1.
  simpl in *.
  destruct (unlink_each_ok (glob W (PathLib.dirprefix p)
              (PathLib.stem p +:+ "_converted_*.mp4") (fs s)) s)
    as (s1 & evs & Hs1 & ? & ? & ? & ? & Htr & ?).
  rewrite Hs1 in *. simpl in Heff. exists s1, evs. repeat split; try done.
  - destruct Heff as [_ _ _ (evs' & Htr' & Hev')].
    rewrite Htr in Htr'. by apply app_inv_head in Htr' as ->.
  - by destruct Heff.
Qed.

Lemma check_video_info_ok file s f vs as_ ss :
  fs s !! file = Some f →
  ffprobe W "v" file (data f) = ProbeStreams vs →
  ffprobe W "a" file (data f) = ProbeStreams as_ →
  ffprobe W "s" file (data f) = ProbeStreams ss →
  check_video_info W file s =
    Ok (make_info vs as_ ss)
       (mkState (fs s) (processed_set s) (processed_hashes s) (clock s)
          (trace s ++ [EvProbe "v" file; EvProbe "a" file; EvProbe "s" file])).
Proof.
  intros Hf Hv Ha Hs. unfold check_video_info, run_ffprobe, bind, emit, get_fs, ret.
  simpl. rewrite Hf, Hv. simpl. rewrite Hf, Ha. simpl. rewrite Hf, Hs. simpl.
  by rewrite <- !app_assoc.
Qed.

End cleanup.

Section per_file.

Context (W : World).

Lemma compute_file_hash_ok p s f :
  fs s !! p = Some f → readable f = true →
  compute_file_hash W p s = Ok (fingerprint W f) s.
Proof. intros Hf Hr. unfold compute_file_hash. by rewrite Hf, Hr. Qed.

Lemma is_4k_or_hdr_spec w h ct :
  is_4k_or_hdr w h ct = true ↔
  (3840 ≤ w ∧ 2160 ≤ h)%Z ∨ ct ∈ ["smpte2084"; "arib-std-b67"; "pq"].
Proof.
  unfold is_4k_or_hdr, hdr_indicators.
  destruct (Z.leb_spec 3840 w), (Z.leb_spec 2160 h); simpl;
    rewrite ?bool_decide_eq_true; split; auto; intros [[??]|?]; auto; lia.
Qed.

(** The cleanup of a file that is still there afterwards did not touch it
    and ran no external tool. *)
Lemma removal_leaves p (f : gmap string File) cleaned :
  is_Some (f !! p) → Forall (removal_event f) cleaned →
  Forall (λ e, is_encode e = false ∧ is_extract e = false ∧ is_probe e = false
               ∧ touches p e = false ∧ decision_of_event e = None) cleaned.
Proof.
  intros [x Hx] Hall. eapply Forall_impl; [exact Hall|].
  intros [[] ?|q| | | |]; simpl; try done.
  intros Hq. repeat split; try done. apply bool_decide_eq_false_2. congruence.
Qed.

(** A file that is not yet handled, can be read, is no duplicate and can be
    probed reaches the policy checks; this is the state it reaches them in. *)
Lemma process_video_fresh p s f vs as_ ss :
  p ∉ processed_set s →
  fs (state_of (cleanup_temp_files W p s)) !! p = Some f →
  readable f = true →
  ¬ (Str.truthy (fingerprint W f) = true ∧ fingerprint W f ∈ processed_hashes s) →
  ffprobe W "v" p (data f) = ProbeStreams vs →
  ffprobe W "a" p (data f) = ProbeStreams as_ →
  ffprobe W "s" p (data f) = ProbeStreams ss →
  ∃ s1 cleaned,
    cleanup_temp_files W p s = Ok tt s1
    ∧ fs s1 ⊆ fs s
    ∧ Forall (removal_event (fs s1)) cleaned
    ∧ Forall (cleanup_event W p) cleaned
    ∧ process_video W p s =
        process_probed W p (make_info vs as_ ss)
          (mkState (fs s1) (processed_set s)
             (if Str.truthy (fingerprint W f)
              then {[fingerprint W f]} ∪ processed_hashes s else processed_hashes s)
             (clock s)
             (trace s ++ cleaned ++
                [EvLog LogProcessing (PathLib.name p);
                 EvProbe "v" p; EvProbe "a" p; EvProbe "s" p])).
Proof.
  intros Hfresh Hfile Hread Hnodup Hv Ha Hs.
  destruct (cleanup_temp_files_ok W p s)
    as (s1 & cleaned & Hc & Hp1 & Hh1 & Hc1 & Hsub & Htr & Hrem & Hev & _).
  rewrite Hc in Hfile. simpl in Hfile.
  exists s1, cleaned. repeat split; try done.
  unfold process_video, PathLib.resolve.
  run. rewrite bool_decide_eq_false_2 by done.
  run. erewrite bind_ok by (by apply compute_file_hash_ok).
  run.
  assert (Str.truthy (fingerprint W f) && bool_decide (fingerprint W f ∈ processed_hashes s1)
          = false) as ->.
  { rewrite Hh1. apply not_true_is_false. intros [??%bool_decide_eq_true]%andb_true_iff. auto. }
  destruct (Str.truthy (fingerprint W f)); run; run;
    (erewrite bind_ok by (eapply check_video_info_ok; simpl; eauto));
    cbn [fs processed_set processed_hashes clock trace];
    rewrite Hp1, Hh1, Hc1, Htr, <- !app_assoc; reflexivity.
Qed.

(** C8.  With the policy flag enabled, a file whose probed profile is at
    least 3840 by 2160 or whose colour transfer is one of smpte2084,
    arib-std-b67 and pq is not converted: [process_video] returns, no encoder
    was called and nothing deleted or renamed the file, which is on disk with
    the bytes it had, and its identity is in the handled set.  The file is
    one that reaches the probe: not yet handled, on disk and readable after
    the temp cleanup, and no duplicate. *)
Theorem policy_4k_hdr_is_skipped p s f vs as_ ss :
  SKIP_4K_OR_HDR W = true →
  p ∉ processed_set s →
  fs (state_of (cleanup_temp_files W p s)) !! p = Some f →
  readable f = true →
  ¬ (Str.truthy (fingerprint W f) = true ∧ fingerprint W f ∈ processed_hashes s) →
  ffprobe W "v" p (data f) = ProbeStreams vs →
  ffprobe W "a" p (data f) = ProbeStreams as_ →
  ffprobe W "s" p (data f) = ProbeStreams ss →
  (let info := make_info vs as_ ss in
   (3840 ≤ width info ∧ 2160 ≤ height info)%Z
   ∨ color_transfer info ∈ ["smpte2084"; "arib-std-b67"; "pq"]) →
  ∃ s', process_video W p s = Ok tt s'
        ∧ Forall (λ e, is_encode e = false ∧ touches p e = false) (new_events s s')
        ∧ fs s !! p = Some f
        ∧ fs s' !! p = Some f
        ∧ p ∈ processed_set s'.
Proof.
  intros Hflag Hfresh Hfile Hread Hnodup Hv Ha Hs Hpol.
  destruct (process_video_fresh p s f vs as_ ss)
    as (s1 & cleaned & Hc & Hsub & Hrem & Hev & ->); try done.
  rewrite Hc in Hfile. simpl in Hfile.
  simpl in Hpol. rewrite <- is_4k_or_hdr_spec in Hpol.
  unfold process_probed. rewrite Hflag, Hpol. simpl.
  assert (Forall (λ e, is_encode e = false ∧ touches p e = false) cleaned) as Hclean.
  { eapply Forall_impl; [apply (removal_leaves p (fs s1)); eauto|].
    by intros e (? & ? & ? & ? & ?). }
  destruct (_ && _); unfold bind, log, emit, processed_add, PathLib.resolve; simpl;
    (eexists; split; [reflexivity|]); simpl;
    (split; [unfold new_events; simpl; rewrite <- !app_assoc, drop_app_length;
             apply Forall_app; split; [done|]; by repeat constructor|]);
    (split; [by eapply lookup_weaken|]); (split; [done|]); set_solver.
Qed.
End per_file.

Lemma policy_4k_hdr_is_skipped_witness :
  let W := Demo.world (Exited 0 (Some Demo.converted)) (Exited 0 (Some Demo.converted))
                      (Exited 0 (Some Demo.subtitle)) in
  let f := mkFile ["003"%byte] true in
  let s := Demo.start {[ "/tv/uhd.mkv" := f ]} in
  ∃ s', process_video W "/tv/uhd.mkv" s = Ok tt s'
        ∧ Forall (λ e, is_encode e = false ∧ touches "/tv/uhd.mkv" e = false) (new_events s s')
        ∧ fs s !! "/tv/uhd.mkv" = Some f
        ∧ fs s' !! "/tv/uhd.mkv" = Some f
        ∧ "/tv/uhd.mkv" ∈ processed_set s'.
Proof.
  intros W f s.
  apply (policy_4k_hdr_is_skipped W "/tv/uhd.mkv" s f
           [Demo.stream "hevc" 3840 2160 None] [Demo.stream "ac3" 0 0 None] []).
  - reflexivity.
  - apply not_elem_of_empty.
  - vm_compute. reflexivity.
  - reflexivity.
  - intros [_ H]. by apply not_elem_of_empty in H.
  - reflexivity.
  - reflexivity.
  - reflexivity.
  - left. vm_compute. split; discriminate.
Defined.

(** * The Transcode Executor *)

Section transcode.

Context (W : World).

(** C1 (as amended).  The CPU strategy is attempted exactly when the GPU
    process exits, and either exits non-zero or leaves no output file.  When
    the GPU process times out, [convert_to_mp4] logs the timeout and reports
    failure at once: the CPU strategy is not run. *)
Theorem cpu_fallback_unless_gpu_timeout src dst info s :
  let gpu := gpu_cmd src dst info in
  match ffmpeg W gpu (fs s) with
  | TimedOut written =>
      convert_to_mp4 W src dst info s =
        Ok false (mkState (write_output dst written (fs s)) (processed_set s)
                    (processed_hashes s) (clock s)
                    (trace s ++ [EvEncode GPU gpu; EvLog LogGpuTimedOut (PathLib.name src)]))
      ∧ ¬ cpu_attempted W src dst info s
  | Exited rc written =>
      if Z.eqb rc 0 && bool_decide (is_Some (write_output dst written (fs s) !! dst))
      then
        convert_to_mp4 W src dst info s =
          Ok true (mkState (write_output dst written (fs s)) (processed_set s)
                     (processed_hashes s) (clock s) (trace s ++ [EvEncode GPU gpu]))
        ∧ ¬ cpu_attempted W src dst info s
      else cpu_attempted W src dst info s
  end.
Proof.
  intros gpu. unfold cpu_attempted, convert_to_mp4, run_ffmpeg, new_events, bind,
    emit, log, get_fs, set_fs, exists_, ret. simpl. fold gpu.
  destruct (ffmpeg W gpu (fs s)) as [rc written|written]; simpl.
  - destruct (Z.eqb rc 0 && bool_decide (is_Some (write_output dst written (fs s) !! dst)));
      simpl.
    + split; [done|]. rewrite drop_app_length.
      intros H%list_elem_of_singleton. discriminate.
    + destruct (ffmpeg W (cpu_cmd src dst info) (write_output dst written (fs s)))
        as [rc' w'|w']; simpl; rewrite <- ?app_assoc, drop_app_length; simpl;
        set_solver.
  - split; [by rewrite <- app_assoc|]. rewrite <- app_assoc, drop_app_length. simpl.
    intros H. apply elem_of_cons in H as [H|H]; [discriminate|].
    apply list_elem_of_singleton in H. discriminate.
Qed.

End transcode.

(** C1 (as stated) fails: with a GPU encoder that runs into the timeout and
    a working CPU encoder, the CPU encoder is never called. *)
Lemma gpu_timeout_has_no_fallback :
  ¬ fallback_on_any_gpu_failure Demo.gpu_hangs "/tv/a.mkv" "/tv/a_converted_t_u.mp4"
      Demo.hevc_info (Demo.start {[ "/tv/a.mkv" := Demo.hevc_file ]}).
Proof.
  unfold fallback_on_any_gpu_failure, gpu_attempt_failed, cpu_attempted.
  intros H. specialize (H I). vm_compute in H.
  apply elem_of_cons in H as [H|H]; [discriminate|].
  apply elem_of_cons in H as [H|H]; [discriminate|].
  by apply elem_of_nil in H.
Qed.

(** * The state files *)

Section state_files.

Lemma split_on_nonempty sep (a : string) : Str.split_on sep a ≠ [].
Proof.
  destruct a as [|x a]; simpl; [done|].
  destruct (sep x); [done|]. by destruct (Str.split_on sep a).
Qed.

Lemma split_on_app sep (a b : string) c :
  sep c = true →
  Str.split_on sep (a +:+ String c b) = Str.split_on sep a ++ Str.split_on sep b.
Proof.
  intros Hc. induction a as [|x a IH].
  - rewrite str_app_nil_l. simpl. by rewrite Hc.
  - rewrite str_app_cons. simpl. rewrite IH. destruct (sep x); [done|].
    pose proof (split_on_nonempty sep a).
    by destruct (Str.split_on sep a).
Qed.

Lemma split_on_none sep (a : string) :
  Str.forallb_str (λ c, negb (sep c)) a = true → Str.split_on sep a = [a].
Proof.
  induction a as [|x a IH]; simpl; [done|].
  intros [Hx Ha]%andb_true_iff. rewrite (IH Ha).
  by destruct (sep x).
Qed.

(** Every segment is free of separators. *)
Lemma split_on_segments sep (s seg : string) :
  seg ∈ Str.split_on sep s → Str.forallb_str (λ c, negb (sep c)) seg = true.
Proof.
  revert seg. induction s as [|x s IH]; intros seg; simpl.
  - by intros ->%list_elem_of_singleton.
  - destruct (sep x) eqn:Hx.
    + intros [->|H]%elem_of_cons; [done|by apply IH].
    + destruct (Str.split_on sep s) as [|seg0 segs].
      * intros ->%list_elem_of_singleton. simpl. by rewrite Hx.
      * intros [->|H]%elem_of_cons.
        -- simpl. rewrite Hx. simpl. apply IH. by left.
        -- apply IH. by right.
Qed.

Lemma forallb_lstrip P s :
  Str.forallb_str P s = true → Str.forallb_str P (Str.lstrip s) = true.
Proof.
  induction s as [|x s IH]; simpl; [done|].
  intros [Hx Hs]%andb_true_iff. destruct (Str.is_space x); [by apply IH|].
  simpl. by rewrite Hx.
Qed.

Lemma forallb_rstrip P s :
  Str.forallb_str P s = true → Str.forallb_str P (Str.rstrip s) = true.
Proof.
  induction s as [|x s IH]; simpl; [done|].
  intros [Hx Hs]%andb_true_iff. specialize (IH Hs).
  destruct (Str.rstrip s) as [|y r].
  - destruct (Str.is_space x); simpl; [done|]. by rewrite Hx.
  - simpl in *. by rewrite Hx.
Qed.

Lemma rstrip_idemp s : Str.rstrip (Str.rstrip s) = Str.rstrip s.
Proof.
  induction s as [|x s IH]; simpl; [done|].
  destruct (Str.rstrip s) as [|y r] eqn:E.
  - destruct (Str.is_space x) eqn:Hx; simpl; [done|]. by rewrite Hx.
  - simpl. simpl in IH. by rewrite IH.
Qed.

(** Stripping on the right keeps a first character that is no space. *)
Lemma lstrip_rstrip s : Str.lstrip s = s → Str.lstrip (Str.rstrip s) = Str.rstrip s.
Proof.
  destruct s as [|x s]; simpl; [done|].
  destruct (Str.is_space x) eqn:Hx.
  - intros H. exfalso.
    assert (∀ t, (String.length (Str.lstrip t) ≤ String.length t)%nat) as Hlen.
    { induction t as [|y t IHt]; simpl; [done|]. destruct (Str.is_space y); simpl; lia. }
    specialize (Hlen s). rewrite H in Hlen. simpl in Hlen. lia.
  - intros _. destruct (Str.rstrip s); simpl; by rewrite Hx.
Qed.

Lemma lstrip_idemp s : Str.lstrip (Str.lstrip s) = Str.lstrip s.
Proof.
  induction s as [|x s IH]; simpl; [done|].
  destruct (Str.is_space x) eqn:Hx; [done|]. simpl. by rewrite Hx.
Qed.

Lemma strip_idemp s : Str.strip (Str.strip s) = Str.strip s.
Proof.
  unfold Str.strip. rewrite (lstrip_rstrip (Str.lstrip s)) by apply lstrip_idemp.
  apply rstrip_idemp.
Qed.

Lemma elem_of_load_lines x content :
  x ∈ load_lines content ↔
  ∃ c seg, content = Some c ∧ seg ∈ Str.split_on Str.is_newline c
           ∧ x = Str.strip seg ∧ Str.truthy x = true.
Proof.
  unfold load_lines. destruct content as [c|].
  - rewrite elem_of_list_to_set, list_elem_of_filter, list_elem_of_fmap.
    split.
    + intros (Ht & seg & -> & Hseg). by exists c, seg.
    + intros (c' & seg & [= <-] & Hseg & -> & Ht). split; [done|]. by exists seg.
  - split; [by intros ?%not_elem_of_empty|]. by intros (? & ? & ? & _).
Qed.

Lemma load_lines_safe x content : x ∈ load_lines content → line_safe x.
Proof.
  rewrite elem_of_load_lines. intros (c & seg & -> & Hseg & -> & Ht).
  split; [apply strip_idemp|]. split; [done|].
  unfold Str.strip. apply forallb_rstrip, forallb_lstrip.
  by eapply split_on_segments.
Qed.

Lemma split_on_save_lines (items : list string) x :
  x ∈ items → Str.forallb_str (λ c, negb (Str.is_newline c)) x = true →
  x ∈ Str.split_on Str.is_newline
        (foldr (fun item rest => item +:+ newline +:+ rest) EmptyString items).
Proof.
  intros Hx Hsafe. induction items as [|y items IH]; [by apply elem_of_nil in Hx|].
  simpl. unfold newline at 1. rewrite str_app_cons, str_app_nil_l.
  rewrite split_on_app by done. apply elem_of_app.
  apply elem_of_cons in Hx as [<-|Hx]; [left|right; by apply IH].
  rewrite split_on_none by done. by left.
Qed.

(** An entry that is safe to write survives a save followed by a load. *)
Lemma load_save_lines (items : gset string) x :
  x ∈ items → line_safe x → x ∈ load_lines (Some (save_lines items)).
Proof.
  intros Hx (Hstrip & Ht & Hnl). rewrite elem_of_load_lines.
  exists (save_lines items), x. repeat split; try done.
  unfold save_lines. apply split_on_save_lines; [|done].
  rewrite merge_sort_Permutation. by apply elem_of_elements.
Qed.

End state_files.

(** * Monotonicity of the handled set *)

Section monotone.

Context (W : World).

Lemma run_pool_processed videos s :
  processed_set s ⊆ processed_set (snd (run_pool W videos s)).
Proof.
  revert s. induction videos as [|v videos IH]; intros s; simpl; [done|].
  pose proof (eff_processed _ _ _ _ (does_process_video W v s)) as Hv.
  destruct (process_video W v s) as [[] s'|e s']; simpl in *.
  - etrans; [exact Hv|apply IH].
  - etrans; [exact Hv|apply IH].
Qed.


End monotone.

(** * Subtitle track indices *)

Section subtitle_indices.

Context (W : World).









End subtitle_indices.

(** * Failures that leave the per-file pipeline *)

Section hashing_failure.

Context (W : World).

(** A file that cannot be opened makes [process_video] raise before the
    file is probed; its identity is not recorded. *)
Lemma unreadable_file_raises p s :
  p ∉ processed_set s →
  (∀ f, fs s !! p = Some f → readable f = false) →
  ∃ s', process_video W p s = Raise (OSError p) s'
        ∧ Forall (λ e, is_probe e = false ∧ is_encode e = false) (new_events s s')
        ∧ p ∉ processed_set s'.
Proof.
  intros Hfresh Hlocked.
  destruct (cleanup_temp_files_ok W p s)
    as (s1 & cleaned & Hc & Hp1 & Hh1 & Hc1 & Hsub & Htr & Hrem & Hev & _).
  exists s1. split; [|split].
  - unfold process_video, PathLib.resolve.
    run. rewrite bool_decide_eq_false_2 by done. run.
    apply bind_raise. unfold compute_file_hash.
    destruct (fs s1 !! p) as [f|] eqn:E; [|done].
    by rewrite (Hlocked f) by (by eapply lookup_weaken).
  - rewrite (new_events_app _ _ _ Htr). eapply Forall_impl; [exact Hev|].
    by intros [[]?| | | | |].
  - by rewrite Hp1.
Qed.

End hashing_failure.

(** C3 (the code departs from it).  One file that cannot be opened: its
    processing raises out of [process_video], the exception leaves [main]
    once the pool has drained, and neither state file is written, although
    the other file of the batch was processed and marked in memory. *)
Lemma hashing_failure_aborts_the_run :
  let W := Demo.encoders_fail in
  let r := main W Demo.locked_library in
  process_video W "/tv/a.mkv" (Demo.start (library Demo.locked_library))
    = Raise (OSError "/tv/a.mkv") (Demo.start (library Demo.locked_library))
  ∧ run_outcome r = Aborted (OSError "/tv/a.mkv")
  ∧ processed_txt (run_disk r) = None
  ∧ hashes_db_txt (run_disk r) = None
  ∧ "/tv/b.mkv" ∈ processed_set (run_state r).
Proof.
  intros W r.
  split; [vm_compute; reflexivity|].
  split; [vm_compute; reflexivity|].
  split; [vm_compute; reflexivity|].
  split; [vm_compute; reflexivity|].
  refine (bool_decide_unpack _ _). vm_compute. exact I.
Qed.

(** C5 (the code departs from it).  A conversion that fails after the
    encoder has written part of its output leaves the temporary file on
    disk.  The first run marks the source as handled; the second run finds
    the temporary file as a new video, processes it and adds it to the
    handled set. *)
Lemma second_run_is_not_a_no_op :
  let W := Demo.encoders_fail in
  let temp := "/tv/a_converted_20240101_120000_00000000.mp4" in
  let r1 := main W Demo.hevc_library in
  let r2 := main W (run_disk r1) in
  run_outcome r1 = Completed
  ∧ run_outcome r2 = Completed
  ∧ load_processed_list (run_disk r1) = {[ "/tv/a.mkv" ]}
  ∧ load_processed_list (run_disk r2) = {[ "/tv/a.mkv"; temp ]}
  ∧ EvLog LogAlreadyOptimized (PathLib.name temp) ∈ trace (run_state r2).
Proof.
  intros W temp r1 r2.
  split; [vm_compute; reflexivity|].
  split; [vm_compute; reflexivity|].
  split; [vm_compute; reflexivity|].
  split; [vm_compute; reflexivity|].
  refine (bool_decide_unpack _ _). vm_compute. exact I.
Qed.

(** * The order of the per-file decisions *)

Section decisions.

Context (W : World).

Lemma bind_assoc {A B C} (m : M A) (k1 : A → M B) (k2 : B → M C) s :
  bind (bind m k1) k2 s = bind m (fun a => bind (k1 a) k2) s.
Proof. unfold bind. by destruct (m s). Qed.

Lemma decision_of_app l l' :
  Forall (λ e, decision_of_event e = None) l → decision_of (l ++ l') = decision_of l'.
Proof. induction 1 as [|e l He _ IH]; simpl; [done|]. by rewrite He. Qed.

Lemma process_video_handled p s :
  p ∈ processed_set s →
  process_video W p s =
    Ok tt (mkState (fs s) (processed_set s) (processed_hashes s) (clock s)
             (trace s ++ [EvLog LogSkipAlreadyProcessed (PathLib.name p)])).
Proof.
  intros Hin. unfold process_video, PathLib.resolve. run.
  by rewrite bool_decide_eq_true_2.
Qed.

(** A fresh readable file whose digest is already known is unlinked and
    marked, and nothing else. *)
Lemma process_video_duplicate p s f :
  p ∉ processed_set s →
  fs (state_of (cleanup_temp_files W p s)) !! p = Some f →
  readable f = true →
  Str.truthy (fingerprint W f) = true →
  fingerprint W f ∈ processed_hashes s →
  ∃ s1 cleaned,
    cleanup_temp_files W p s = Ok tt s1
    ∧ fs s1 ⊆ fs s
    ∧ Forall (removal_event (fs s1)) cleaned
    ∧ Forall (cleanup_event W p) cleaned
    ∧ process_video W p s =
        Ok tt (mkState (delete p (fs s1)) ({[p]} ∪ processed_set s) (processed_hashes s)
                 (clock s)
                 (trace s ++ cleaned ++ [EvLog LogDuplicate (PathLib.name p); EvUnlink p])).
Proof.
  intros Hfresh Hfile Hread Htruthy Hdup.
  destruct (cleanup_temp_files_ok W p s)
    as (s1 & cleaned & Hc & Hp1 & Hh1 & Hc1 & Hsub & Htr & Hrem & Hev & _).
  rewrite Hc in Hfile. simpl in Hfile.
  exists s1, cleaned. repeat split; try done.
  unfold process_video, PathLib.resolve.
  run. rewrite bool_decide_eq_false_2 by done.
  run. erewrite bind_ok by (by apply compute_file_hash_ok).
  run. rewrite Htruthy, bool_decide_eq_true_2 by (by rewrite Hh1). simpl.
  run. unfold bind, unlink, processed_add. simpl. rewrite Hfile. simpl.
  by rewrite Hp1, Hh1, Hc1, Htr, <- !app_assoc.
Qed.

Lemma is_4k_or_hdr_unfold w h ct :
  is_4k_or_hdr w h ct =
    ((3840 <=? w)%Z && (2160 <=? h)%Z)
    || bool_decide (ct ∈ ["smpte2084"; "arib-std-b67"; "pq"]).
Proof. unfold is_4k_or_hdr, hdr_indicators. by destruct (_ && _). Qed.

(** The encoder is the first thing a conversion calls. *)
Lemma convert_branch_starts_encoding p info s :
  (String.eqb (video_codec info) "unknown" && String.eqb (audio_codec info) "unknown") = false →
  (SKIP_4K_OR_HDR W && is_4k_or_hdr (width info) (height info) (color_transfer info)) = false →
  already_optimized p info = false →
  ∃ cmd evs,
    trace (state_of (process_probed W p info s)) = trace s ++ EvEncode GPU cmd :: evs.
Proof.
  intros H1 H2 H3. unfold process_probed. rewrite H1, H2, H3.
  run. unfold convert_to_mp4. rewrite bind_assoc. run.
  match goal with |- context [state_of (?m ?s0)] =>
    assert (does (λ _, True) (λ _, True) m) as Hm; [|destruct (Hm s0) as [_ _ _ (evs & Ht & _)]]
  end.
  { repeat first
      [ does_step
      | eapply does_weaken; [| |apply does_check_video_info]; done
      | eapply does_weaken; [| |apply does_extract_and_mark]; done ]; done. }
  eexists _, evs. rewrite Ht. simpl. by rewrite <- app_assoc.
Qed.

(** C6.  [process_video] takes the decision the Policy Engine of the
    specification prescribes, checking in this order, first match winning:
    identity already handled; fingerprint already seen (the file is then
    deleted); both codecs unknown; policy flag with 4K or HDR; already in the
    target profile; otherwise convert.  The decision is read off the trace:
    each skip has its own log line, a conversion shows as the first encoder
    call.  The fingerprint is only needed when the identity is not handled,
    the profile only when the fingerprint is new. *)
Theorem decisions_follow_the_policy_order p s f vs as_ ss :
  (∀ b, sha256_hex W b ≠ "") →
  (p ∉ processed_set s →
     fs (state_of (cleanup_temp_files W p s)) !! p = Some f ∧ readable f = true) →
  (p ∉ processed_set s → fingerprint W f ∉ processed_hashes s →
     ffprobe W "v" p (data f) = ProbeStreams vs
     ∧ ffprobe W "a" p (data f) = ProbeStreams as_
     ∧ ffprobe W "s" p (data f) = ProbeStreams ss) →
  let s' := state_of (process_video W p s) in
  let decision :=
    spec_decide (SKIP_4K_OR_HDR W) p (make_info vs as_ ss) (fingerprint W f)
                (processed_set s) (processed_hashes s) in
  decision_of (new_events s s') = Some decision
  ∧ (decision = Skip Duplicate → EvUnlink p ∈ new_events s s' ∧ fs s' !! p = None)
  ∧ (decision ≠ Convert → Forall (λ e, is_encode e = false) (new_events s s')).
Proof.
  intros Hdigest Hfile Hprobe s' decision. subst s' decision. unfold spec_decide.
  destruct (decide (p ∈ processed_set s)) as [Hin|Hfresh].
  { rewrite bool_decide_eq_true_2 by done. rewrite process_video_handled by done.
    unfold new_events. simpl. rewrite drop_app_length. simpl.
    split; [done|]. split; [done|]. intros _. by repeat constructor. }
  rewrite bool_decide_eq_false_2 by done.
  destruct (Hfile Hfresh) as [Hf Hread].
  assert (Str.truthy (fingerprint W f) = true) as Htruthy.
  { unfold Str.truthy. apply negb_true_iff, String.eqb_neq, Hdigest. }
  destruct (decide (fingerprint W f ∈ processed_hashes s)) as [Hdup|Hnew].
  { rewrite bool_decide_eq_true_2 by done.
    destruct (process_video_duplicate p s f)
      as (s1 & cleaned & Hc & Hsub & Hrem & Hev & ->); try done.
    rewrite Hc in Hf. simpl in Hf.
    pose proof (removal_leaves p (fs s1) cleaned (mk_is_Some _ _ Hf) Hrem) as Hclean.
    unfold new_events. simpl. rewrite drop_app_length.
    split; [|split].
    - rewrite decision_of_app; [done|].
      eapply Forall_impl; [exact Hclean|]. by intros e (? & ? & ? & ? & ?).
    - intros _. split; [|apply lookup_delete_eq].
      rewrite elem_of_app, !elem_of_cons. auto.
    - intros _. apply Forall_app. split; [|by repeat constructor].
      eapply Forall_impl; [exact Hclean|]. by intros e (? & ? & ? & ? & ?). }
  rewrite bool_decide_eq_false_2 by done.
  destruct (Hprobe Hfresh Hnew) as (Hv & Ha & Hs).
  destruct (process_video_fresh W p s f vs as_ ss)
    as (s1 & cleaned & Hc & Hsub & Hrem & Hev & ->); try done.
  { by intros [_ ?]. }
  rewrite Hc in Hf. simpl in Hf.
  pose proof (removal_leaves p (fs s1) cleaned (mk_is_Some _ _ Hf) Hrem) as Hclean.
  set (info := make_info vs as_ ss).
  set (s2 := mkState _ _ _ _ _).
  assert (∀ evs, trace (state_of (process_probed W p info s2)) = trace s2 ++ evs →
            new_events s (state_of (process_probed W p info s2))
            = cleaned ++ [EvLog LogProcessing (PathLib.name p);
                          EvProbe "v" p; EvProbe "a" p; EvProbe "s" p] ++ evs) as Hnew_events.
  { intros evs Hevs. apply new_events_app. rewrite Hevs. subst s2. simpl.
    by rewrite <- !app_assoc. }
  assert (∀ evs, decision_of (cleaned ++ [EvLog LogProcessing (PathLib.name p);
                    EvProbe "v" p; EvProbe "a" p; EvProbe "s" p] ++ evs) = decision_of evs)
    as Hdec.
  { intros evs. rewrite decision_of_app; [done|].
    eapply Forall_impl; [exact Hclean|]. by intros e (? & ? & ? & ? & ?). }
  assert (∀ evs, Forall (λ e, is_encode e = false) evs →
            Forall (λ e, is_encode e = false)
              (cleaned ++ [EvLog LogProcessing (PathLib.name p);
                    EvProbe "v" p; EvProbe "a" p; EvProbe "s" p] ++ evs)) as Hnoenc.
  { intros evs Hevs. apply Forall_app. split.
    - eapply Forall_impl; [exact Hclean|]. by intros e (? & ? & ? & ? & ?).
    - apply Forall_app. split; [by repeat constructor|done]. }
  rewrite <- is_4k_or_hdr_unfold.
  change (String.eqb (video_codec info) "h264"
          && bool_decide (audio_codec info ∈ ["aac"; "mp3"; "ac3"])
          && String.eqb (Str.lower (PathLib.suffix p)) ".mp4")
    with (already_optimized p info).
  destruct (String.eqb (video_codec info) "unknown"
            && String.eqb (audio_codec info) "unknown") eqn:E1.
  { rewrite (Hnew_events [EvLog LogNoValidStreams (PathLib.name p)])
      by (unfold process_probed; by rewrite E1).
    rewrite Hdec. split; [done|]. split; [done|]. intros _. apply Hnoenc. by repeat constructor. }
  destruct (SKIP_4K_OR_HDR W
            && is_4k_or_hdr (width info) (height info) (color_transfer info)) eqn:E2.
  { rewrite (Hnew_events [EvLog LogDetected4kHdr (PathLib.name p)])
      by (unfold process_probed; by rewrite E1, E2).
    rewrite Hdec. split; [done|]. split; [done|]. intros _. apply Hnoenc. by repeat constructor. }
  destruct (already_optimized p info) eqn:E3.
  { assert (∃ evs, trace (state_of (process_probed W p info s2))
                   = trace s2 ++ EvLog LogAlreadyOptimized (PathLib.name p) :: evs
                   ∧ Forall sub_event evs) as (evs & Hevs & Hsub_ev).
    { unfold process_probed. rewrite E1, E2, E3. run.
      match goal with |- context [state_of (extract_and_mark W ?a ?b ?c ?s0)] =>
        destruct (does_extract_and_mark W a b c s0) as [_ _ _ (evs & Ht & Hsub_ev)]
      end.
      exists evs. rewrite Ht. simpl. by rewrite <- app_assoc. }
    rewrite (Hnew_events _ Hevs), Hdec. split; [done|]. split; [done|].
    intros _. apply Hnoenc. constructor; [done|].
    eapply Forall_impl; [exact Hsub_ev|]. by intros []. }
  destruct (convert_branch_starts_encoding p info s2 E1 E2 E3) as (cmd & evs & Hevs).
  rewrite (Hnew_events _ Hevs), Hdec. split; [done|]. split; [done|]. by intros [].
Qed.

End decisions.

Lemma decisions_follow_the_policy_order_witness :
  let W := Demo.world (Exited 0 (Some Demo.converted)) (Exited 0 (Some Demo.converted))
                      (Exited 0 (Some Demo.subtitle)) in
  let s := Demo.start {[ "/tv/a.mkv" := Demo.hevc_file ]} in
  decision_of (new_events s (state_of (process_video W "/tv/a.mkv" s))) = Some Convert.
Proof.
  intros W s.
  destruct (decisions_follow_the_policy_order W "/tv/a.mkv" s Demo.hevc_file
              [Demo.stream "hevc" 1280 720 None] [Demo.stream "ac3" 0 0 None]
              [Demo.stream "subrip" 0 0 (Some "eng")]) as [H _].
  - intros b. discriminate.
  - intros _. split; [vm_compute|]; reflexivity.
  - intros _ _. repeat split.
  - vm_compute in H. exact H.
Defined.

(** * Failed conversions *)

Section failed_conversion.

Context (W : World).

Lemma temp_name_neq p n : temp_name W p n ≠ p.
Proof.
  unfold temp_name, PathLib.with_name. intros H.
  pose proof (eq_trans H (path_eq_parts p)) as H'.
  apply String.app_inj, String.app_inj in H'.
  destruct (suffix_shape p) as [E|[r E]]; rewrite E in H'; discriminate.
Qed.


Lemma spec_decide_inv flag p info h (handled seen : gset string) :
  match spec_decide flag p info h handled seen with
  | Skip AlreadyProcessed => p ∈ handled
  | Skip Duplicate => (p ∉ handled) ∧ h ∈ seen
  | Skip Unprobeable =>
      (p ∉ handled) ∧ (h ∉ seen)
      ∧ (String.eqb (video_codec info) "unknown" && String.eqb (audio_codec info) "unknown")
        = true
  | Skip Policy4kHdr =>
      (p ∉ handled) ∧ (h ∉ seen)
      ∧ (String.eqb (video_codec info) "unknown" && String.eqb (audio_codec info) "unknown")
        = false
      ∧ (flag && is_4k_or_hdr (width info) (height info) (color_transfer info)) = true
  | Skip AlreadyOptimal =>
      (p ∉ handled) ∧ (h ∉ seen)
      ∧ (String.eqb (video_codec info) "unknown" && String.eqb (audio_codec info) "unknown")
        = false
      ∧ (flag && is_4k_or_hdr (width info) (height info) (color_transfer info)) = false
      ∧ already_optimized p info = true
  | Convert =>
      (p ∉ handled) ∧ (h ∉ seen)
      ∧ (String.eqb (video_codec info) "unknown" && String.eqb (audio_codec info) "unknown")
        = false
      ∧ (flag && is_4k_or_hdr (width info) (height info) (color_transfer info)) = false
      ∧ already_optimized p info = false
  end.
Proof.
  unfold spec_decide. rewrite <- is_4k_or_hdr_unfold.
  change (String.eqb (video_codec info) "h264"
          && bool_decide (audio_codec info ∈ ["aac"; "mp3"; "ac3"])
          && String.eqb (Str.lower (PathLib.suffix p)) ".mp4")
    with (already_optimized p info).
  destruct (decide (p ∈ handled));
    [by rewrite bool_decide_eq_true_2|rewrite bool_decide_eq_false_2 by done].
  destruct (decide (h ∈ seen));
    [by rewrite bool_decide_eq_true_2|rewrite bool_decide_eq_false_2 by done].
  destruct (_ && _) eqn:E1; [done|].
  destruct (flag && _) eqn:E2; [done|].
  by destruct (already_optimized p info) eqn:E3.
Qed.


End failed_conversion.



(** * Skips *)

Section skips.

Context (W : World).

Lemma bind_ok_inv {A B} (m : M A) (k : A → M B) s b s' :
  bind m k s = Ok b s' → ∃ a s1, m s = Ok a s1 ∧ k a s1 = Ok b s'.
Proof. unfold bind. destruct (m s) as [a s1|]; [|done]. by exists a, s1. Qed.

Lemma extract_and_mark_marks original final info s u s' :
  extract_and_mark W original final info s = Ok u s' → original ∈ processed_set s'.
Proof.
  unfold extract_and_mark. intros H.
  apply bind_ok_inv in H as (? & s1 & _ & H).
  apply bind_ok_inv in H as (? & s2 & _ & H).
  unfold bind, processed_add in H. simpl in H. simplify_eq. simpl.
  apply elem_of_union_r, elem_of_union_l. by apply elem_of_singleton.
Qed.

(** A file that already is an MP4 is no subtitle sidecar. *)
Lemma already_optimized_not_sidecar p info :
  already_optimized p info = true → ¬ is_sidecar p.
Proof.
  unfold already_optimized. intros Hopt Hside.
  apply andb_true_iff in Hopt as [_ Hsfx]. apply String.eqb_eq in Hsfx.
  assert (String.length (PathLib.suffix p) = 4) as Hlen.
  { rewrite <- lower_length, Hsfx. reflexivity. }
  rewrite (path_eq_parts p), <- str_app_assoc in Hside.
  destruct Hside as [H|H]; apply endswith_same_length in H; try done;
    rewrite H in Hsfx; discriminate.
Qed.

Lemma sub_event_leaves p e :
  ¬ is_sidecar p → sub_event e → is_encode e = false ∧ touches p e = false.
Proof.
  intros Hp. destruct e as [| |a b| | |]; simpl; try done.
  intros [Ha Hb]. split; [done|].
  rewrite !bool_decide_eq_false_2; [done| |]; by intros ->.
Qed.

Lemma cleanup_frame p s q :
  ¬ is_temp_of W p q → fs (state_of (cleanup_temp_files W p s)) !! q = fs s !! q.
Proof. intros Hq. by apply (eff_fs _ _ _ _ (does_cleanup_temp_files W p s)). Qed.

(** C4 (as amended).  When the decision for a file is a skip other than
    Skip(duplicate), the file itself is not converted, deleted or renamed and
    has the bytes it had; files that are neither leftover temporary files of
    this video nor subtitle sidecars are as they were; and if
    [process_video] returns, the identity is in the handled set.  For
    Skip(already-processed) nothing else happens.  The other skips also
    record the fingerprint; of these, Skip(unprobeable) and
    Skip(policy-4k-hdr) always return, run no subtitle extractor and leave
    every file but leftover temporary files alone, while
    Skip(already-optimal) goes on to the subtitle extractor. *)
Theorem non_duplicate_skip_keeps_the_file p s f vs as_ ss reason :
  (p ∉ processed_set s →
     fs (state_of (cleanup_temp_files W p s)) !! p = Some f ∧ readable f = true) →
  (p ∉ processed_set s → fingerprint W f ∉ processed_hashes s →
     ffprobe W "v" p (data f) = ProbeStreams vs
     ∧ ffprobe W "a" p (data f) = ProbeStreams as_
     ∧ ffprobe W "s" p (data f) = ProbeStreams ss) →
  spec_decide (SKIP_4K_OR_HDR W) p (make_info vs as_ ss) (fingerprint W f)
              (processed_set s) (processed_hashes s) = Skip reason →
  reason ≠ Duplicate →
  let r := process_video W p s in
  let s' := state_of r in
  fs s' !! p = fs s !! p
  ∧ Forall (λ e, is_encode e = false ∧ touches p e = false) (new_events s s')
  ∧ (∀ q, ¬ is_temp_of W p q → ¬ is_sidecar q → fs s' !! q = fs s !! q)
  ∧ ((∃ u, r = Ok u s') → p ∈ processed_set s')
  ∧ (reason ≠ AlreadyOptimal →
       r = Ok tt s'
       ∧ Forall (λ e, is_extract e = false) (new_events s s')
       ∧ ∀ q, ¬ is_temp_of W p q → fs s' !! q = fs s !! q)
  ∧ (reason = AlreadyProcessed →
       fs s' = fs s ∧ processed_set s' = processed_set s
       ∧ processed_hashes s' = processed_hashes s
       ∧ new_events s s' = [EvLog LogSkipAlreadyProcessed (PathLib.name p)])
  ∧ (reason ≠ AlreadyProcessed → Str.truthy (fingerprint W f) = true →
       fingerprint W f ∈ processed_hashes s').
Proof.
  intros Hfile Hprobe Hdec Hnodup r s'. subst r s'.
  pose proof (spec_decide_inv (SKIP_4K_OR_HDR W) p (make_info vs as_ ss) (fingerprint W f)
                (processed_set s) (processed_hashes s)) as Hinv.
  rewrite Hdec in Hinv.
  destruct reason; [| done | | |].
  - (* already processed *)
    rewrite process_video_handled by done. unfold new_events. simpl.
    rewrite drop_app_length. repeat split; try done.
    + by repeat constructor.
    + by repeat constructor.
  - (* unprobeable *)
    destruct Hinv as (Hfresh & Hnew & E1).
    destruct (Hfile Hfresh) as [Hf Hread]. destruct (Hprobe Hfresh Hnew) as (Hv & Ha & Hs).
    pose proof (cleanup_frame p s) as Hframe.
    destruct (process_video_fresh W p s f vs as_ ss)
      as (s1 & cleaned & Hc & Hsub & Hrem & Hev & ->); try done.
    { by intros [_ ?]. }
    rewrite Hc in Hf, Hframe. simpl in Hf, Hframe.
    pose proof (removal_leaves p (fs s1) cleaned (mk_is_Some _ _ Hf) Hrem) as Hclean.
    unfold process_probed. rewrite E1.
    unfold bind, log, emit, processed_add, PathLib.resolve, new_events. simpl.
    rewrite <- !app_assoc, drop_app_length.
    repeat split; try done.
    + rewrite Hf. symmetry. by eapply lookup_weaken.
    + apply Forall_app. split; [|by repeat constructor].
      eapply Forall_impl; [exact Hclean|]. by intros e (? & ? & ? & ? & ?).
    + intros q Hq _. by apply Hframe.
    + intros _. apply elem_of_union_l. by apply elem_of_singleton.
    + apply Forall_app. split; [|by repeat constructor].
      eapply Forall_impl; [exact Hclean|]. by intros e (? & ? & ? & ? & ?).
    + intros _ ->. apply elem_of_union_l. by apply elem_of_singleton.
  - (* 4K or HDR *)
    destruct Hinv as (Hfresh & Hnew & E1 & E2).
    destruct (Hfile Hfresh) as [Hf Hread]. destruct (Hprobe Hfresh Hnew) as (Hv & Ha & Hs).
    pose proof (cleanup_frame p s) as Hframe.
    destruct (process_video_fresh W p s f vs as_ ss)
      as (s1 & cleaned & Hc & Hsub & Hrem & Hev & ->); try done.
    { by intros [_ ?]. }
    rewrite Hc in Hf, Hframe. simpl in Hf, Hframe.
    pose proof (removal_leaves p (fs s1) cleaned (mk_is_Some _ _ Hf) Hrem) as Hclean.
    unfold process_probed. rewrite E1, E2.
    unfold bind, log, emit, processed_add, PathLib.resolve, new_events. simpl.
    rewrite <- !app_assoc, drop_app_length.
    repeat split; try done.
    + rewrite Hf. symmetry. by eapply lookup_weaken.
    + apply Forall_app. split; [|by repeat constructor].
      eapply Forall_impl; [exact Hclean|]. by intros e (? & ? & ? & ? & ?).
    + intros q Hq _. by apply Hframe.
    + intros _. apply elem_of_union_l. by apply elem_of_singleton.
    + apply Forall_app. split; [|by repeat constructor].
      eapply Forall_impl; [exact Hclean|]. by intros e (? & ? & ? & ? & ?).
    + intros _ ->. apply elem_of_union_l. by apply elem_of_singleton.
  - (* already optimal *)
    destruct Hinv as (Hfresh & Hnew & E1 & E2 & E3).
    destruct (Hfile Hfresh) as [Hf Hread]. destruct (Hprobe Hfresh Hnew) as (Hv & Ha & Hs).
    pose proof (cleanup_frame p s) as Hframe.
    pose proof (already_optimized_not_sidecar p _ E3) as Hnotside.
    destruct (process_video_fresh W p s f vs as_ ss)
      as (s1 & cleaned & Hc & Hsub & Hrem & Hev & ->); try done.
    { by intros [_ ?]. }
    rewrite Hc in Hf, Hframe. simpl in Hf, Hframe.
    pose proof (removal_leaves p (fs s1) cleaned (mk_is_Some _ _ Hf) Hrem) as Hclean.
    unfold process_probed. rewrite E1, E2, E3. run. unfold PathLib.resolve.
    match goal with |- context [extract_and_mark W ?a ?b ?c ?s0] =>
      pose proof (does_extract_and_mark W a b c s0) as [_ Hhashes Hfs (evs & Ht & Hsub_ev)];
      pose proof (extract_and_mark_marks a b c s0) as Hmark;
      set (r := extract_and_mark W a b c s0) in *
    end.
    simpl in Hfs, Ht, Hhashes.
    assert (Forall (λ e, is_encode e = false ∧ touches p e = false)
              (cleaned ++ [EvLog LogProcessing (PathLib.name p); EvProbe "v" p;
                           EvProbe "a" p; EvProbe "s" p] ++
                          [EvLog LogAlreadyOptimized (PathLib.name p)] ++ evs)) as Hall.
    { apply Forall_app. split.
      { eapply Forall_impl; [exact Hclean|]. by intros e (? & ? & ? & ? & ?). }
      apply Forall_app. split; [by repeat constructor|].
      apply Forall_app. split; [by repeat constructor|].
      eapply Forall_impl; [exact Hsub_ev|]. intros e. by apply sub_event_leaves. }
    unfold new_events. rewrite Ht, <- !app_assoc, drop_app_length.
    split; [|split; [|split; [|split; [|split; [|split]]]]].
    + rewrite Hfs by done. rewrite Hf. symmetry. by eapply lookup_weaken.
    + exact Hall.
    + intros q Hq Hq'. rewrite Hfs by done. by apply Hframe.
    + intros (u & Hu). by eapply Hmark.
    + by intros [].
    + intros [=].
    + intros _ Htruthy. apply Hhashes. simpl. rewrite Htruthy.
      apply elem_of_union_l. by apply elem_of_singleton.
Qed.

End skips.

(** C4 (as stated) fails: an H.264/AAC [.mp4] file with a subtitle track is
    skipped as already optimal, yet its fingerprint is recorded, the
    extractor runs and a sidecar file appears. *)
Lemma already_optimal_skip_extracts_subtitles :
  ¬ skip_only_marks_handled Demo.all_well "/tv/b.mp4"
      (Demo.start {[ "/tv/b.mp4" := Demo.h264_file ]}).
Proof.
  unfold skip_only_marks_handled. intros H.
  destruct (H AlreadyOptimal) as (Hfs & _).
  - discriminate.
  - vm_compute. reflexivity.
  - apply (f_equal (λ m : gmap string File, m !! "/tv/b.eng.srt")) in Hfs.
    vm_compute in Hfs. discriminate.
Qed.

Lemma non_duplicate_skip_keeps_the_file_witness :
  let W := Demo.all_well in
  let s := Demo.start {[ "/tv/b.mp4" := Demo.h264_file ]} in
  let s' := state_of (process_video W "/tv/b.mp4" s) in
  fs s' !! "/tv/b.mp4" = fs s !! "/tv/b.mp4"
  ∧ Forall (λ e, is_encode e = false ∧ touches "/tv/b.mp4" e = false) (new_events s s').
Proof.
  intros W s s'.
  destruct (non_duplicate_skip_keeps_the_file W "/tv/b.mp4" s Demo.h264_file
              [Demo.stream "h264" 1920 1080 None] [Demo.stream "aac" 0 0 None]
              [Demo.stream "subrip" 0 0 (Some "eng")] AlreadyOptimal)
    as (H1 & H2 & _).
  - intros _. split; [vm_compute|]; reflexivity.
  - intros _ _. repeat split.
  - vm_compute. reflexivity.
  - discriminate.
  - split; [exact H1|exact H2].
Defined.


(** * The fingerprint prefix *)

Section prefix.

Lemma read_take n (l : list byte) :
  read n l = (take (N.to_nat n) l, drop (N.to_nat n) l).
Proof.
  revert n. induction l as [|b l IH]; intros n; simpl.
  - by rewrite take_nil, drop_nil.
  - destruct (N.eqb_spec n 0) as [->|Hn]; [done|].
    rewrite IH. replace (N.to_nat n) with (S (N.to_nat (N.pred n))) by lia. done.
Qed.

Lemma hash_loop_nil fuel chunk_size max_bytes pos fed :
  hash_loop fuel chunk_size max_bytes [] pos fed = fed.
Proof. by destruct fuel. Qed.

(** With a chunk size that divides what is left of the budget, the loop
    feeds the digest exactly the rest of the prefix. *)
Lemma hash_loop_prefix fuel (c k : nat) (rest fed : list byte) (pos max_bytes : N) :
  (0 < c)%nat →
  N.to_nat max_bytes = (N.to_nat pos + S k * c)%nat →
  (length rest < fuel)%nat →
  hash_loop fuel (N.of_nat c) max_bytes rest pos fed = fed ++ take (S k * c) rest.
Proof.
  revert k rest fed pos. induction fuel as [|fuel IH]; intros k rest fed pos Hc Hmax Hfuel;
    [lia|].
  cbn [hash_loop]. rewrite read_take, Nat2N.id.
  destruct rest as [|b0 rest0]; [by rewrite !take_nil, app_nil_r|].
  set (rest := b0 :: rest0) in *.
  destruct (take c rest) as [|b chunk] eqn:Echunk.
  { destruct c; [lia|done]. }
  rewrite <- Echunk. clear Echunk b chunk.
  destruct (decide (length rest < c)%nat) as [Hshort|Hfull].
  - rewrite (take_ge rest c) by lia. rewrite (take_ge rest (S k * c)) by nia.
    rewrite (drop_ge rest c) by lia. rewrite hash_loop_nil.
    by destruct (_ <=? _)%N.
  - assert (length (take c rest) = c) as Hlen by (rewrite length_take; lia).
    rewrite Hlen.
    destruct (N.leb_spec max_bytes (pos + N.of_nat c)) as [Hge|Hlt].
    + assert (k = 0)%nat as -> by nia. by rewrite Nat.mul_1_l.
    + destruct k as [|k]; [lia|].
      rewrite (IH k); try lia.
      * rewrite <- app_assoc. f_equal.
        replace (S (S k) * c)%nat with (c + S k * c)%nat by lia.
        by rewrite take_take_drop.
      * rewrite length_drop. subst rest. simpl in *. lia.
Qed.

(** The bytes hashed with the default parameters are the first MiB of the
    file, or all of it when it is shorter. *)
Lemma hashed_bytes_default (b : list byte) :
  hashed_bytes default_chunk_size default_max_bytes b
  = take (N.to_nat default_max_bytes) b.
Proof.
  unfold hashed_bytes.
  replace default_chunk_size with (N.of_nat (N.to_nat 8192)) by (by rewrite N2Nat.id).
  rewrite (hash_loop_prefix _ _ 127).
  - rewrite app_nil_l.
    replace (S 127 * N.to_nat 8192)%nat with (N.to_nat default_max_bytes)
      by (unfold default_max_bytes; lia).
    reflexivity.
  - lia.
  - unfold default_max_bytes. lia.
  - lia.
Qed.

End prefix.

(** * Duplicates *)

Section duplicates.

Context (W : World).

Lemma trace_grows {A} touch ev (m : M A) s :
  does touch ev m → ∃ evs, trace (state_of (m s)) = trace s ++ evs.
Proof. intros Hm. destruct (Hm s) as [_ _ _ (evs & ? & _)]. by exists evs. Qed.





End duplicates.


(** * Round trips through the state files *)

Section state_file_round_trips.

Lemma split_on_saved (items : list string) :
  Forall (λ x, Str.forallb_str (λ c, negb (Str.is_newline c)) x = true) items →
  Str.split_on Str.is_newline
    (foldr (fun item rest => item +:+ newline +:+ rest) EmptyString items)
  = items ++ [""].
Proof.
  induction 1 as [|x items Hx _ IH]; [done|].
  simpl. unfold newline at 1. rewrite str_app_cons, str_app_nil_l.
  rewrite split_on_app by done. rewrite split_on_none by done. by rewrite IH.
Qed.

(** What is read back was written, up to stripping. *)
Lemma load_save_lines_inv (items : gset string) y :
  (∀ x, x ∈ items → Str.forallb_str (λ c, negb (Str.is_newline c)) x = true) →
  y ∈ load_lines (Some (save_lines items)) →
  ∃ x, x ∈ items ∧ y = Str.strip x.
Proof.
  intros Hnl (c & seg & [= <-] & Hseg & -> & Ht)%elem_of_load_lines.
  unfold save_lines in Hseg. rewrite split_on_saved in Hseg.
  - apply elem_of_app in Hseg as [Hseg|Hseg%list_elem_of_singleton].
    + exists seg. split; [|done]. apply elem_of_elements.
      by rewrite <- (merge_sort_Permutation String.le).
    + subst seg. done.
  - apply Forall_forall. intros x Hx. apply Hnl, elem_of_elements.
    by rewrite <- (merge_sort_Permutation String.le).
Qed.



Lemma load_save_load content :
  load_lines (Some (save_lines (load_lines content))) = load_lines content.
Proof.
  apply set_eq. intros y. split.
  - intros Hy. destruct (load_save_lines_inv (load_lines content) y) as (x & Hx & ->); [|done|].
    + intros x Hx. by destruct (load_lines_safe x content Hx) as (_ & _ & ?).
    + destruct (load_lines_safe x content Hx) as (-> & _). done.
  - intros Hy. apply load_save_lines; [done|]. by eapply load_lines_safe.
Qed.

(** X3.  Whatever the two state files hold, writing back the sets loaded from
    them and loading again gives the same sets: entries that were read once
    are never lost or altered by a save. *)
Theorem reloading_a_state_file_is_stable (d : Disk) :
  load_lines (Some (save_lines (load_processed_list d))) = load_processed_list d
  ∧ load_lines (Some (save_lines (load_hash_db d))) = load_hash_db d.
Proof. split; apply load_save_load. Qed.

End state_file_round_trips.



(** * How much of a file is hashed *)

Section hashed_prefix.

Context (W : World).

(** There is a whole number of chunks that reaches the limit and, unless it
    is one chunk, does not overshoot it by a chunk. *)
Lemma chunks_needed (pos m c : nat) :
  (0 < c)%nat →
  ∃ k, (1 ≤ k ∧ m ≤ pos + k * c ∧ (k = 1 ∨ pos + (k - 1) * c < m))%nat.
Proof.
  intros Hc. destruct (decide (m ≤ pos + c)%nat) as [Hle|Hgt].
  - exists 1%nat. lia.
  - exists (S ((m - pos - 1) / c)).
    pose proof (Nat.div_mod_eq (m - pos - 1) c) as Hdiv.
    pose proof (Nat.mod_upper_bound (m - pos - 1) c ltac:(lia)) as Hmod.
    split; [lia|]. split; [nia|]. right. nia.
Qed.

Lemma hash_loop_chunks fuel (c : nat) (rest fed : list byte) (pos max_bytes : N) :
  (0 < c)%nat →
  (length rest < fuel)%nat →
  ∃ k, hash_loop fuel (N.of_nat c) max_bytes rest pos fed = fed ++ take (k * c) rest
       ∧ (1 ≤ k)%nat
       ∧ (N.to_nat max_bytes ≤ N.to_nat pos + k * c)%nat
       ∧ (k = 1%nat ∨ (N.to_nat pos + (k - 1) * c < N.to_nat max_bytes)%nat).
Proof.
  revert rest fed pos. induction fuel as [|fuel IH]; intros rest fed pos Hc Hfuel; [lia|].
  cbn [hash_loop]. rewrite read_take, Nat2N.id.
  destruct rest as [|b0 rest0].
  { destruct (chunks_needed (N.to_nat pos) (N.to_nat max_bytes) c Hc) as (k & Hk).
    exists k. by rewrite !take_nil, app_nil_r. }
  set (rest := b0 :: rest0) in *.
  destruct (take c rest) as [|b chunk] eqn:Echunk.
  { destruct c; [lia|done]. }
  rewrite <- Echunk. clear Echunk b chunk.
  destruct (decide (length rest < c)%nat) as [Hshort|Hfull].
  - destruct (chunks_needed (N.to_nat pos) (N.to_nat max_bytes) c Hc) as (k & Hk).
    exists k. split; [|done].
    rewrite (take_ge rest c) by lia. rewrite (take_ge rest (k * c)) by nia.
    rewrite (drop_ge rest c) by lia. rewrite hash_loop_nil.
    by destruct (_ <=? _)%N.
  - assert (length (take c rest) = c) as Hlen by (rewrite length_take; lia).
    rewrite Hlen.
    destruct (N.leb_spec max_bytes (pos + N.of_nat c)) as [Hge|Hlt].
    + exists 1%nat. rewrite Nat.mul_1_l. split; [done|]. lia.
    + destruct (IH (drop c rest) (fed ++ take c rest) (pos + N.of_nat c)%N Hc)
        as (k & -> & Hk1 & Hk2 & Hk3).
      { rewrite length_drop. subst rest. simpl in *. lia. }
      exists (S k). split.
      * rewrite <- app_assoc. f_equal.
        replace (S k * c)%nat with (c + k * c)%nat by lia.
        by rewrite take_take_drop.
      * split; [lia|]. split; [lia|]. right.
        replace (S k - 1)%nat with k by lia.
        destruct Hk3 as [->|Hk3]; [lia|]. nia.
Qed.

(** X4.  With its default parameters [compute_file_hash] returns the digest
    of the first MiB of the file, or of the whole file when it is shorter,
    and changes nothing. *)
Theorem fingerprint_covers_the_first_mebibyte p s f :
  fs s !! p = Some f → readable f = true →
  compute_file_hash W p s
  = Ok (sha256_hex W (take (N.to_nat default_max_bytes) (data f))) s.
Proof.
  intros Hf Hr. rewrite (compute_file_hash_ok W p s f Hf Hr).
  unfold fingerprint. by rewrite hashed_bytes_default.
Qed.

(** X5.  How much the loop of [compute_file_hash] reads for other
    parameters.  A chunk size of zero reads nothing, so the digest is that of
    the empty input whatever the file holds.  For a positive chunk size the
    digest is fed a prefix of the file made of whole chunks: the least number
    of chunks that reaches [max_bytes], and at least one; a limit that is no
    multiple of the chunk size is thus rounded up to the next chunk. *)
Theorem hashed_bytes_are_whole_chunks (chunk_size max_bytes : N) (b : list byte) :
  (chunk_size = 0%N → hashed_bytes chunk_size max_bytes b = [])
  ∧ ((0 < chunk_size)%N →
     ∃ k : N,
       hashed_bytes chunk_size max_bytes b = take (N.to_nat (k * chunk_size)) b
       ∧ (1 ≤ k)%N
       ∧ (max_bytes ≤ k * chunk_size)%N
       ∧ (k = 1%N ∨ ((k - 1) * chunk_size < max_bytes)%N)).
Proof.
  split.
  - intros ->. unfold hashed_bytes. cbn [hash_loop]. by destruct b.
  - intros Hc. unfold hashed_bytes.
    destruct (hash_loop_chunks (S (length b)) (N.to_nat chunk_size) b [] 0 max_bytes)
      as (k & Hk & Hk1 & Hk2 & Hk3); [lia|lia|].
    rewrite N2Nat.id in Hk. exists (N.of_nat k). rewrite Hk, app_nil_l.
    split; [f_equal; lia|]. split; [lia|]. split; [lia|].
    destruct Hk3 as [->|Hk3]; [by left|right]. nia.
Qed.

End hashed_prefix.

Lemma fingerprint_covers_the_first_mebibyte_witness :
  compute_file_hash Demo.all_well "/tv/a.mkv" (Demo.start {[ "/tv/a.mkv" := Demo.hevc_file ]})
  = Ok (sha256_hex Demo.all_well (take (N.to_nat default_max_bytes) (data Demo.hevc_file)))
       (Demo.start {[ "/tv/a.mkv" := Demo.hevc_file ]}).
Proof.
  apply (fingerprint_covers_the_first_mebibyte Demo.all_well "/tv/a.mkv"
           (Demo.start {[ "/tv/a.mkv" := Demo.hevc_file ]}) Demo.hevc_file).
  - vm_compute. reflexivity.
  - reflexivity.
Defined.

Lemma hashed_bytes_are_whole_chunks_witness :
  ∃ k : N,
    hashed_bytes 4 6 (data Demo.hevc_file) = take (N.to_nat (k * 4)) (data Demo.hevc_file)
    ∧ (1 ≤ k)%N ∧ (6 ≤ k * 4)%N ∧ (k = 1%N ∨ ((k - 1) * 4 < 6)%N).
Proof.
  destruct (hashed_bytes_are_whole_chunks 4 6 (data Demo.hevc_file)) as [_ H].
  apply H. reflexivity.
Defined.

(** * Temporary conversion files *)

Section temp_files.

Context (W : World).



Lemma temp_name_neq_final p n : temp_name W p n ≠ PathLib.with_suffix p ".mp4".
Proof.
  unfold temp_name, PathLib.with_name, PathLib.with_suffix. intros H.
  apply String.app_inj, String.app_inj in H. discriminate.
Qed.

Lemma temp_name_not_sidecar p n : ¬ is_sidecar (temp_name W p n).
Proof.
  unfold temp_name, PathLib.with_name. rewrite <- !str_app_assoc.
  intros [H|H]; apply endswith_same_length in H; done.
Qed.

(** X7.  The temporary output path is neither the source nor the final
    [.mp4] path, ends in [.mp4] and is no subtitle sidecar: the encoder never
    writes over the file it reads, nor over the target before the conversion
    has succeeded. *)
Theorem temp_name_is_a_fresh_mp4_path p n :
  temp_name W p n ≠ p
  ∧ temp_name W p n ≠ PathLib.with_suffix p ".mp4"
  ∧ Str.endswith (temp_name W p n) ".mp4" = true
  ∧ ¬ is_sidecar (temp_name W p n).
Proof.
  split; [apply temp_name_neq|]. split; [apply temp_name_neq_final|].
  split; [|apply temp_name_not_sidecar].
  unfold temp_name, PathLib.with_name. rewrite <- !str_app_assoc. apply endswith_app.
Qed.

End temp_files.

(** * Guessing the language of an extracted subtitle *)

Section language_guess.

Context (W : World).

(** [maybe_guess_srt_language] returns; it leaves the files as they are or
    moves the subtitle to a name that was free. *)
Lemma maybe_guess_srt_language_cases srt s :
  ∃ s', maybe_guess_srt_language W srt s = Ok tt s'
        ∧ processed_set s' = processed_set s
        ∧ processed_hashes s' = processed_hashes s
        ∧ clock s' = clock s
        ∧ (fs s' = fs s
           ∨ ∃ file lang,
               fs s !! srt = Some file
               ∧ LANGDETECT_AVAILABLE W = true
               ∧ (20 ≤ String.length (Str.strip (read_text file)))%nat
               ∧ detect W (read_text file) = Some lang
               ∧ Str.lower lang ≠ "en"
               ∧ fs s !! PathLib.with_name srt
                           (PathLib.stem srt +:+ "." +:+ Str.lower lang +:+ ".srt") = None
               ∧ fs s' = <[PathLib.with_name srt
                             (PathLib.stem srt +:+ "." +:+ Str.lower lang +:+ ".srt") := file]>
                           (delete srt (fs s))).
Proof.
  unfold maybe_guess_srt_language. run.
  destruct (fs s !! srt) as [file|] eqn:Hsrt; [|exists s; repeat split; auto].
  destruct (LANGDETECT_AVAILABLE W) eqn:Hld; simpl; [|exists s; repeat split; auto].
  destruct (Nat.ltb_spec (String.length (Str.strip (read_text file))) 20) as [Hshort|Hlong];
    [exists s; repeat split; auto|].
  destruct (detect W (read_text file)) as [lang|] eqn:Hdet.
  2: { eexists. split; [reflexivity|]. simpl. repeat split; auto. }
  destruct (String.eqb_spec (Str.lower lang) "en") as [Hen|Hen];
    [exists s; repeat split; auto|].
  set (new_path := PathLib.with_name srt
                     (PathLib.stem srt +:+ "." +:+ Str.lower lang +:+ ".srt")).
  run. destruct (fs s !! new_path) as [old|] eqn:Hnew.
  { rewrite bool_decide_eq_true_2 by done. exists s. repeat split; auto. }
  rewrite bool_decide_eq_false_2 by (by intros [? ?]).
  unfold try_catch, bind, rename, log, emit. simpl. rewrite Hsrt, Hnew.
  rewrite bool_decide_eq_false_2 by (by intros [? ?]). rewrite andb_false_r. simpl.
  eexists. split; [reflexivity|]. simpl. repeat split; auto.
  right. exists file, lang. repeat split; auto.
Qed.


(** Files that were there before the subtitle [srt] was written are still
    there after the language guess. *)
Lemma maybe_guess_keeps_older_files srt s (older : gmap string File) :
  older ⊆ fs s → older !! srt = None →
  older ⊆ fs (state_of (maybe_guess_srt_language W srt s)).
Proof.
  intros Hsub Hsrt.
  destruct (maybe_guess_srt_language_cases srt s) as (s' & -> & _ & _ & _ & Hfs). simpl.
  destruct Hfs as [->|(file & lang & _ & _ & _ & _ & _ & Hfree & ->)]; [done|].
  apply map_subseteq_spec. intros q g Hq.
  assert (fs s !! q = Some g) as Hq' by (by eapply lookup_weaken).
  rewrite lookup_insert_ne by congruence.
  rewrite lookup_delete_ne by congruence. done.
Qed.

End language_guess.

(** * What the probe records *)

Section probe_records.

Context (W : World).

Lemma classify_subtitles_elem streams :
  ∀ idx text image t,
    (t ∈ (classify_subtitles idx streams text image).1 ↔
       t ∈ text
       ∨ ∃ k stream, streams !! k = Some stream
                     ∧ t = ((idx + k)%nat, default "unknown" (codec_name stream),
                            default "" (tag_language stream))
                     ∧ in_TEXT_CODECS (default "unknown" (codec_name stream)) = true)
    ∧ (t ∈ (classify_subtitles idx streams text image).2 ↔
       t ∈ image
       ∨ ∃ k stream, streams !! k = Some stream
                     ∧ t = ((idx + k)%nat, default "unknown" (codec_name stream),
                            default "" (tag_language stream))
                     ∧ in_TEXT_CODECS (default "unknown" (codec_name stream)) = false
                     ∧ default "unknown" (codec_name stream) = "hdmv_pgs_subtitle").
Proof.
  induction streams as [|stream streams IH]; intros idx text image t; simpl.
  - split; (split; [by left|]); by intros [?|(k & ? & ? & _)].
  - set (codec := default "unknown" (codec_name stream)).
    set (lang := default "" (tag_language stream)).
    assert (∀ (P : nat → Stream → Prop),
              (∃ k st, (stream :: streams) !! k = Some st ∧ P k st)
              ↔ P 0%nat stream ∨ ∃ k st, streams !! k = Some st ∧ P (S k) st) as Hshift.
    { intros P. split.
      - intros ([|k] & st & Hk & HP); simpl in Hk; [simplify_eq; by left|right; eauto].
      - intros [HP|(k & st & Hk & HP)]; [by exists 0%nat, stream|by exists (S k), st]. }
    pose proof (Hshift (λ k st, t = ((idx + k)%nat, default "unknown" (codec_name st),
                                     default "" (tag_language st))
                                ∧ in_TEXT_CODECS (default "unknown" (codec_name st)) = true))
      as Ht.
    pose proof (Hshift (λ k st, t = ((idx + k)%nat, default "unknown" (codec_name st),
                                     default "" (tag_language st))
                                ∧ in_TEXT_CODECS (default "unknown" (codec_name st)) = false
                                ∧ default "unknown" (codec_name st) = "hdmv_pgs_subtitle"))
      as Hi.
    cbv beta in Ht, Hi. fold codec lang in Ht, Hi. rewrite Nat.add_0_r in Ht, Hi.
    rewrite Ht, Hi. clear Ht Hi Hshift.
    destruct (in_TEXT_CODECS codec) eqn:Etext.
    + destruct (IH (S idx) (text ++ [(idx, codec, lang)]) image t) as [-> ->].
      rewrite elem_of_app, list_elem_of_singleton.
      setoid_rewrite Nat.add_succ_r. simpl. split; intuition congruence.
    + destruct (String.eqb_spec codec "hdmv_pgs_subtitle") as [Hpgs|Hpgs].
      * destruct (IH (S idx) text (image ++ [(idx, codec, lang)]) t) as [-> ->].
        rewrite elem_of_app, list_elem_of_singleton.
        setoid_rewrite Nat.add_succ_r. simpl. split; intuition congruence.
      * destruct (IH (S idx) text image t) as [-> ->].
        setoid_rewrite Nat.add_succ_r. simpl. split; intuition congruence.
Qed.

(** X9.  The tracks the probe records are exactly the subtitle streams with a
    known codec: a stream at position [n] of the subtitle query is a text
    track when its codec is one of subrip, ass, ssa, mov_text and webvtt, an
    image track when it is hdmv_pgs_subtitle, and is dropped otherwise (a
    missing codec name counts as unknown). *)
Theorem subtitle_tracks_are_the_known_codecs vs as_ ss n codec lang :
  ((n, codec, lang) ∈ text_sub_tracks (make_info vs as_ ss) ↔
     ∃ stream, ss !! n = Some stream
               ∧ codec = default "unknown" (codec_name stream)
               ∧ lang = default "" (tag_language stream)
               ∧ codec ∈ ["subrip"; "ass"; "ssa"; "mov_text"; "webvtt"])
  ∧ ((n, codec, lang) ∈ image_sub_tracks (make_info vs as_ ss) ↔
     ∃ stream, ss !! n = Some stream
               ∧ codec = default "unknown" (codec_name stream)
               ∧ lang = default "" (tag_language stream)
               ∧ codec = "hdmv_pgs_subtitle").
Proof.
  destruct (classify_subtitles_elem ss 0 [] [] (n, codec, lang)) as [Ht Hi].
  assert (text_sub_tracks (make_info vs as_ ss) = (classify_subtitles 0 ss [] []).1
          ∧ image_sub_tracks (make_info vs as_ ss) = (classify_subtitles 0 ss [] []).2)
    as [-> ->].
  { unfold make_info.
    destruct (match vs with [] => _ | _ => _ end) as [[[[??]?]?]?].
    by destruct (classify_subtitles 0 ss [] []). }
  rewrite Ht, Hi. simpl. split.
  - split.
    + intros [?%elem_of_nil|(k & stream & Hk & [= -> -> ->] & Hin)]; [done|].
      exists stream. repeat split; try done.
      unfold in_TEXT_CODECS in Hin. by apply bool_decide_eq_true in Hin.
    + intros (stream & Hn & -> & -> & Hin). right. exists n, stream.
      repeat split; try done. unfold in_TEXT_CODECS. by apply bool_decide_eq_true.
  - split.
    + intros [?%elem_of_nil|(k & stream & Hk & [= -> -> ->] & _ & Hin)]; [done|].
      by exists stream.
    + intros (stream & Hn & -> & -> & Hin). right. exists n, stream.
      repeat split; try done. by rewrite Hin.
Qed.

(** X10.  Probing a path that is not on disk does not fail: the three queries
    are made (the prober exits with a non-zero status, which [run_ffprobe]
    turns into an empty answer), nothing changes, and the profile is the
    default one, with both codecs unknown, no tracks and zero dimensions. *)
Theorem probing_a_missing_file_gives_the_default_profile file s :
  fs s !! file = None →
  check_video_info W file s
  = Ok (mkInfo "unknown" "unknown" [] [] 0 0 "" "")
       (mkState (fs s) (processed_set s) (processed_hashes s) (clock s)
          (trace s ++ [EvProbe "v" file; EvProbe "a" file; EvProbe "s" file])).
Proof.
  intros Hf. unfold check_video_info, run_ffprobe, bind, emit, get_fs, ret.
  simpl. rewrite Hf. simpl. rewrite Hf. simpl. rewrite Hf. simpl.
  rewrite <- !app_assoc. reflexivity.
Qed.

End probe_records.

Lemma probing_a_missing_file_gives_the_default_profile_witness :
  check_video_info Demo.all_well "/tv/gone.mkv" (Demo.start ∅)
  = Ok (mkInfo "unknown" "unknown" [] [] 0 0 "" "")
       (mkState ∅ ∅ ∅ 0 [EvProbe "v" "/tv/gone.mkv"; EvProbe "a" "/tv/gone.mkv";
                          EvProbe "s" "/tv/gone.mkv"]).
Proof.
  apply (probing_a_missing_file_gives_the_default_profile Demo.all_well "/tv/gone.mkv"
           (Demo.start ∅)).
  reflexivity.
Defined.

(** * The outcome of a conversion *)

Section conversion_outcome.

Context (W : World).

Lemma attempt_failed_iff (rc : Z) (dst : string) (f : gmap string File) :
  Z.eqb rc 0 && bool_decide (is_Some (f !! dst)) = false ↔ rc ≠ 0%Z ∨ f !! dst = None.
Proof.
  rewrite andb_false_iff, Z.eqb_neq, bool_decide_eq_false.
  rewrite <- eq_None_not_Some. done.
Qed.

(** [convert_to_mp4] always returns; it writes nothing but its output path,
    and the output is there when it reports success. *)
Lemma convert_to_mp4_returns src dst info s :
  ∃ ok s', convert_to_mp4 W src dst info s = Ok ok s'
           ∧ (ok = false ↔ conversion_fails W src dst info (fs s))
           ∧ (ok = true → is_Some (fs s' !! dst))
           ∧ (∀ q, q ≠ dst → fs s' !! q = fs s !! q)
           ∧ processed_set s' = processed_set s
           ∧ processed_hashes s' = processed_hashes s
           ∧ clock s' = clock s
           ∧ (filter (λ e, is_encode e = true) (new_events s s')
                = [EvEncode GPU (gpu_cmd src dst info)]
              ∨ filter (λ e, is_encode e = true) (new_events s s')
                = [EvEncode GPU (gpu_cmd src dst info); EvEncode CPU (cpu_cmd src dst info)]).
Proof.
  pose proof (does_convert_to_mp4 W src dst info s) as Heff.
  unfold conversion_fails.
  unfold convert_to_mp4, run_ffmpeg, bind, emit, log, get_fs, set_fs, exists_, ret in *.
  simpl in *.
  destruct (ffmpeg W (gpu_cmd src dst info) (fs s)) as [rc written|written]; simpl in *.
  2: { eexists _, _. split; [reflexivity|]. simpl. destruct Heff as [_ _ Hfs _].
       repeat split; try done.
       left. unfold new_events. simpl. rewrite <- app_assoc, drop_app_length. done. }
  set (f1 := write_output dst written (fs s)) in *.
  destruct (Z.eqb rc 0 && bool_decide (is_Some (f1 !! dst))) eqn:Egpu; simpl in *.
  { eexists _, _. split; [reflexivity|]. simpl. destruct Heff as [_ _ Hfs _].
    apply andb_true_iff in Egpu as [Hrc%Z.eqb_eq Hex%bool_decide_eq_true].
    repeat split; try done.
    - intros [[?|Hnone] _]; [done|]. rewrite Hnone in Hex. by destruct Hex.
    - left. unfold new_events. simpl. rewrite drop_app_length. done. }
  apply attempt_failed_iff in Egpu.
  destruct (ffmpeg W (cpu_cmd src dst info) f1) as [rc' written'|written']; simpl in *.
  2: { eexists _, _. split; [reflexivity|]. simpl. destruct Heff as [_ _ Hfs _].
       repeat split; try done.
       right. unfold new_events. simpl. rewrite <- !app_assoc, drop_app_length. done. }
  set (f2 := write_output dst written' f1) in *.
  eexists _, _. split; [reflexivity|]. simpl. destruct Heff as [_ _ Hfs _].
  split; [|split; [|repeat split; try done]].
  - rewrite attempt_failed_iff. tauto.
  - intros [_ Hex%bool_decide_eq_true]%andb_true_iff. done.
  - right. unfold new_events. simpl. rewrite <- !app_assoc, drop_app_length. done.
Qed.


(** [needle in hay] holds exactly for the substrings of [hay]. *)
Lemma prefix_app (s t : string) : String.prefix s (s +:+ t) = true.
Proof.
  induction s as [|a s IH]; simpl; [by destruct t|].
  by destruct (Ascii.ascii_dec a a).
Qed.

Lemma prefix_inv (s h : string) : String.prefix s h = true → ∃ t, h = s +:+ t.
Proof.
  revert h. induction s as [|a s IH]; intros h; simpl; [intros _; by exists h|].
  destruct h as [|b h]; simpl; [done|]. destruct (Ascii.ascii_dec a b) as [->|]; [|done].
  intros (t & ->)%IH. exists t. reflexivity.
Qed.

Lemma contains_spec (needle hay : string) :
  Str.contains needle hay = true ↔ ∃ pre post, hay = pre +:+ needle +:+ post.
Proof.
  split.
  - induction hay as [|a hay IH]; cbn [Str.contains].
    + rewrite orb_false_r. intros (t & ->)%prefix_inv. by exists "", t.
    + intros [(t & ->)%prefix_inv|(pre & post & ->)%IH]%orb_true_iff.
      * by exists "", t.
      * by exists (String a pre), post.
  - intros (pre & post & ->). induction pre as [|a pre IH].
    + rewrite str_app_nil_l.
      assert (∀ h, String.prefix needle h = true → Str.contains needle h = true) as Hp.
      { intros h Hh. destruct h; cbn [Str.contains]; by rewrite Hh. }
      apply Hp, prefix_app.
    + rewrite str_app_cons. cbn [Str.contains]. rewrite IH. apply orb_true_r.
Qed.

(** X12.  The pixel-format filter [-vf format=yuv420p] is passed to the
    encoder exactly when the probed pixel format has [10] as a substring,
    wherever it stands; otherwise no filter argument is passed. *)
Theorem pixel_filter_iff_substring_10 (pix_fmt : string) :
  (filter_args pix_fmt = ["-vf"; "format=yuv420p"]
   ↔ ∃ pre post, pix_fmt = pre +:+ "10" +:+ post)
  ∧ (filter_args pix_fmt = [] ↔ ¬ ∃ pre post, pix_fmt = pre +:+ "10" +:+ post).
Proof.
  unfold filter_args. rewrite <- contains_spec.
  destruct (Str.contains "10" pix_fmt); split; split; done.
Qed.

End conversion_outcome.

(** * What subtitle extraction leaves alone *)

Section extraction_frame.

Context (W : World).

Lemma state_of_bind {A B} (m : M A) (k : A → M B) s :
  state_of (bind m k s)
  = match m s with Ok a s1 => state_of (k a s1) | Raise _ s1 => s1 end.
Proof. unfold bind. by destruct (m s). Qed.

Lemma write_output_subseteq out written (older f : gmap string File) :
  older ⊆ f → older !! out = None → older ⊆ write_output out written f.
Proof.
  intros Hsub Hout. destruct written as [b|]; simpl; [|done].
  by apply insert_subseteq_r.
Qed.

Lemma run_extraction_fs cmd out s :
  ∃ written, fs (state_of (run_extraction W cmd out s)) = write_output out written (fs s).
Proof.
  unfold run_extraction, run_ffmpeg, bind, emit, get_fs, set_fs, ret, raise. simpl.
  destruct (ffmpeg W cmd (fs s)) as [rc written|written]; by exists written.
Qed.

Lemma extract_text_keeps_files file tracks s :
  fs s ⊆ fs (state_of (extract_text_subs_if_any W file tracks s)).
Proof.
  revert s. induction tracks as [|[[n c] l] tracks IH]; intros s; [done|].
  cbn [extract_text_subs_if_any].
  set (out := PathLib.with_name file
                (PathLib.stem file +:+ "." +:+ track_label n l +:+ ".srt")).
  rewrite state_of_bind. unfold exists_. cbv beta iota. rewrite state_of_bind.
  match goal with |- context [match ?body s with _ => _ end] =>
    assert (fs s ⊆ fs (state_of (body s))) as Hbody
  end.
  { destruct (fs s !! out) as [old|] eqn:E.
    { by rewrite bool_decide_eq_true_2. }
    rewrite bool_decide_eq_false_2 by (by intros [? ?]).
    rewrite state_of_bind.
    destruct (run_extraction_fs (text_sub_cmd file n out) out s) as [written Hfs].
    assert (fs s ⊆ write_output out written (fs s)) as Hsub
      by (by apply write_output_subseteq).
    destruct (run_extraction W (text_sub_cmd file n out) out s) as [ok s1|e s1];
      simpl in Hfs; [|by rewrite Hfs].
    destruct ok; [|simpl; by rewrite Hfs].
    rewrite state_of_bind. unfold log, emit.
    destruct (negb (Str.truthy l) && LANGDETECT_AVAILABLE W); [|simpl; by rewrite Hfs].
    apply maybe_guess_keeps_older_files; [|done]. simpl. by rewrite Hfs. }
  match goal with |- context [match ?r with _ => _ end] =>
    destruct r as [[] s1|e s1]; simpl in Hbody; [|done]
  end.
  etrans; [exact Hbody|apply IH].
Qed.

Lemma extract_image_keeps_files file tracks s :
  fs s ⊆ fs (state_of (extract_image_subs_if_any W file tracks s)).
Proof.
  revert s. induction tracks as [|[[n c] l] tracks IH]; intros s; [done|].
  cbn [extract_image_subs_if_any].
  set (out := PathLib.with_name file
                (PathLib.stem file +:+ "." +:+ track_label n l +:+ ".sup")).
  rewrite state_of_bind. unfold exists_. cbv beta iota. rewrite state_of_bind.
  match goal with |- context [match ?body s with _ => _ end] =>
    assert (fs s ⊆ fs (state_of (body s))) as Hbody
  end.
  { destruct (fs s !! out) as [old|] eqn:E.
    { by rewrite bool_decide_eq_true_2. }
    rewrite bool_decide_eq_false_2 by (by intros [? ?]).
    rewrite state_of_bind.
    destruct (run_extraction_fs (image_sub_cmd file n out) out s) as [written Hfs].
    assert (fs s ⊆ write_output out written (fs s)) as Hsub
      by (by apply write_output_subseteq).
    destruct (run_extraction W (image_sub_cmd file n out) out s) as [ok s1|e s1];
      simpl in Hfs; [|by rewrite Hfs].
    destruct ok; simpl; by rewrite Hfs. }
  match goal with |- context [match ?r with _ => _ end] =>
    destruct r as [[] s1|e s1]; simpl in Hbody; [|done]
  end.
  etrans; [exact Hbody|apply IH].
Qed.

(** X13.  Subtitle extraction never deletes or overwrites a file that was on
    disk when it started: every such file is there afterwards with the same
    bytes, whether the extraction returns or an extractor call times out.
    (The extractor is taken to write nothing but the output path it is
    given.) *)
Theorem extraction_keeps_existing_files file tracks s :
  fs s ⊆ fs (state_of (extract_text_subs_if_any W file tracks s))
  ∧ fs s ⊆ fs (state_of (extract_image_subs_if_any W file tracks s)).
Proof. split; [apply extract_text_keeps_files|apply extract_image_keeps_files]. Qed.

(** X14.  A track whose sidecar file already exists is not extracted again:
    when the sidecar of every listed track is on disk, the extraction
    returns at once, with no extractor call and no change at all. *)
Theorem existing_sidecars_are_not_extracted_again file tracks s :
  ((∀ n codec lang, (n, codec, lang) ∈ tracks →
      is_Some (fs s !! PathLib.with_name file
                         (PathLib.stem file +:+ "." +:+ track_label n lang +:+ ".srt"))) →
   extract_text_subs_if_any W file tracks s = Ok tt s)
  ∧ ((∀ n codec lang, (n, codec, lang) ∈ tracks →
        is_Some (fs s !! PathLib.with_name file
                           (PathLib.stem file +:+ "." +:+ track_label n lang +:+ ".sup"))) →
     extract_image_subs_if_any W file tracks s = Ok tt s).
Proof.
  split; induction tracks as [|[[n c] l] tracks IH]; intros Hall; try done.
  - cbn [extract_text_subs_if_any]. unfold bind at 1. unfold exists_.
    rewrite bool_decide_eq_true_2 by (apply (Hall n c l); by left).
    unfold bind at 1. unfold ret.
    apply IH. intros n' c' l' Hin. apply (Hall n' c' l'). by right.
  - cbn [extract_image_subs_if_any]. unfold bind at 1. unfold exists_.
    rewrite bool_decide_eq_true_2 by (apply (Hall n c l); by left).
    unfold bind at 1. unfold ret.
    apply IH. intros n' c' l' Hin. apply (Hall n' c' l'). by right.
Qed.

End extraction_frame.

Lemma existing_sidecars_are_not_extracted_again_witness :
  let s := Demo.start {[ "/tv/b.mp4" := Demo.h264_file;
                         "/tv/b.eng.srt" := mkFile Demo.subtitle true ]} in
  extract_text_subs_if_any Demo.all_well "/tv/b.mp4" [(0%nat, "subrip", "eng")] s = Ok tt s.
Proof.
  intros s.
  apply (existing_sidecars_are_not_extracted_again Demo.all_well "/tv/b.mp4"
           [(0%nat, "subrip", "eng")] s).
  intros n codec lang Hin. apply list_elem_of_singleton in Hin.
  injection Hin as -> -> ->. vm_compute. eexists. reflexivity.
Defined.

(** * What marks a file as handled *)

Section preserved_views.

Context {B : Type} (proj : State → B).

Lemma preserves_ret {A} (a : A) : preserves proj (ret a).
Proof. by intros s. Qed.

Lemma preserves_raise {A} e : preserves proj (@raise A e).
Proof. by intros s. Qed.

Lemma preserves_bind {A C} (m : M A) (k : A → M C) :
  preserves proj m → (∀ a, preserves proj (k a)) → preserves proj (bind m k).
Proof.
  intros Hm Hk s. unfold bind. specialize (Hm s).
  destruct (m s) as [a s'|e s']; [|done]. simpl in Hm. by rewrite Hk.
Qed.

Lemma preserves_try_catch {A} (m : M A) (h : exn → M A) :
  preserves proj m → (∀ e, preserves proj (h e)) → preserves proj (try_catch m h).
Proof.
  intros Hm Hh s. unfold try_catch. specialize (Hm s).
  destruct (m s) as [a s'|e s']; [done|]. simpl in Hm. by rewrite Hh.
Qed.

Lemma preserves_get_fs : preserves proj get_fs.
Proof. by intros s. Qed.

Lemma preserves_exists p : preserves proj (exists_ p).
Proof. by intros s. Qed.

Lemma preserves_in_processed x : preserves proj (in_processed x).
Proof. by intros s. Qed.

Lemma preserves_in_hashes x : preserves proj (in_hashes x).
Proof. by intros s. Qed.

Lemma preserves_compute_file_hash W p : preserves proj (compute_file_hash W p).
Proof.
  intros s. unfold compute_file_hash.
  destruct (fs s !! p) as [f|]; [destruct (readable f)|]; done.
Qed.

Context (Hview : sets_only proj).

Lemma preserves_emit e : preserves proj (emit e).
Proof. intros [f ps ph c t]. apply Hview. Qed.

Lemma preserves_log l p : preserves proj (log l p).
Proof. apply preserves_emit. Qed.

Lemma preserves_unlink p : preserves proj (unlink p).
Proof.
  intros [f ps ph c t]. unfold unlink. simpl.
  destruct (f !! p); simpl; [apply Hview|done].
Qed.

Lemma preserves_rename W src dst : preserves proj (rename W src dst).
Proof.
  intros [f ps ph c t]. unfold rename. simpl.
  destruct (f !! src); simpl; [|done].
  destruct (windows W && _); simpl; [done|apply Hview].
Qed.

Lemma preserves_get_temp_conversion_filename W p :
  preserves proj (get_temp_conversion_filename W p).
Proof. intros [f ps ph c t]. apply Hview. Qed.

Lemma preserves_run_ffmpeg W cmd out : preserves proj (run_ffmpeg W cmd out).
Proof.
  intros [f ps ph c t]. unfold run_ffmpeg, bind, get_fs, set_fs, ret. simpl.
  destruct (ffmpeg W cmd f) as [rc w|w]; simpl; apply Hview.
Qed.

End preserved_views.

Lemma sets_only_processed_set : sets_only processed_set.
Proof. done. Qed.

Lemma sets_only_processed_hashes : sets_only processed_hashes.
Proof. done. Qed.

Lemma preserves_hashes_add h : preserves processed_set (hashes_add h).
Proof. by intros s. Qed.

Lemma preserves_processed_add x : preserves processed_hashes (processed_add x).
Proof. by intros s. Qed.

(** One step of a proof that a program leaves a view of the state alone. *)
Ltac preserves_step :=
  lazymatch goal with
  | |- preserves _ (bind _ _) => apply preserves_bind; [|intros ?]
  | |- preserves _ (ret _) => apply preserves_ret
  | |- preserves _ (raise _) => apply preserves_raise
  | |- preserves _ (try_catch _ _) => apply preserves_try_catch; [|intros ?]
  | |- preserves _ (emit _) => apply preserves_emit
  | |- preserves _ (log _ _) => apply preserves_log
  | |- preserves _ get_fs => apply preserves_get_fs
  | |- preserves _ (exists_ _) => apply preserves_exists
  | |- preserves _ (in_processed _) => apply preserves_in_processed
  | |- preserves _ (in_hashes _) => apply preserves_in_hashes
  | |- preserves _ (unlink _) => apply preserves_unlink
  | |- preserves _ (rename _ _ _) => apply preserves_rename
  | |- preserves _ (compute_file_hash _ _) => apply preserves_compute_file_hash
  | |- preserves _ (get_temp_conversion_filename _ _) =>
      apply preserves_get_temp_conversion_filename
  | |- preserves _ (run_ffmpeg _ _ _) => apply preserves_run_ffmpeg
  | |- preserves processed_set (hashes_add _) => apply preserves_hashes_add
  | |- preserves processed_hashes (processed_add _) => apply preserves_processed_add
  | |- preserves _ (if ?b then _ else _) => destruct b
  | |- preserves _ (match ?x with _ => _ end) => destruct x
  end.

Ltac preserves_auto := repeat preserves_step.

Section preserved_by_the_tools.

Context (W : World) {B : Type} (proj : State → B) (Hview : sets_only proj).

Lemma preserves_unlink_each temps : preserves proj (unlink_each temps).
Proof. induction temps as [|t temps IH]; simpl; preserves_auto; done. Qed.

Lemma preserves_cleanup_temp_files p : preserves proj (cleanup_temp_files W p).
Proof.
  unfold cleanup_temp_files. preserves_auto. by apply preserves_unlink_each.
Qed.

Lemma preserves_check_video_info file : preserves proj (check_video_info W file).
Proof. unfold check_video_info, run_ffprobe. preserves_auto; done. Qed.

Lemma preserves_convert_to_mp4 src dst info :
  preserves proj (convert_to_mp4 W src dst info).
Proof. unfold convert_to_mp4. preserves_auto; done. Qed.

Lemma preserves_run_extraction cmd out : preserves proj (run_extraction W cmd out).
Proof. unfold run_extraction. preserves_auto; done. Qed.

Lemma preserves_maybe_guess_srt_language srt :
  preserves proj (maybe_guess_srt_language W srt).
Proof. unfold maybe_guess_srt_language. preserves_auto; done. Qed.

Lemma preserves_extract_text_subs_if_any file tracks :
  preserves proj (extract_text_subs_if_any W file tracks).
Proof.
  induction tracks as [|[[n c] l] tracks IH]; simpl; preserves_auto; try done.
  - apply preserves_run_extraction.
  - apply preserves_maybe_guess_srt_language.
Qed.

Lemma preserves_extract_image_subs_if_any file tracks :
  preserves proj (extract_image_subs_if_any W file tracks).
Proof.
  induction tracks as [|[[n c] l] tracks IH]; simpl; preserves_auto; try done.
  apply preserves_run_extraction.
Qed.

End preserved_by_the_tools.

Section marking.

Context (W : World).

Lemma marked_bind {A C} p final X (m : M A) (k : A → M C) s :
  preserves processed_set m → processed_set s = X →
  (∀ a s1, processed_set s1 = X → marked p final X (k a s1)) →
  marked p final X (bind m k s).
Proof.
  intros Hm HX Hk. unfold bind. specialize (Hm s).
  destruct (m s) as [a s1|e s1]; simpl in *; [apply Hk|]; congruence.
Qed.

Lemma marked_processed_add p final X s :
  processed_set s = X → marked p final X (processed_add p s).
Proof.
  intros <-. simpl. split; [apply elem_of_union_l; by apply elem_of_singleton|].
  intros x Hx. rewrite !elem_of_union in Hx. rewrite !elem_of_union. tauto.
Qed.

Lemma marked_extract_and_mark p final X info s :
  processed_set s = X →
  marked p final X (extract_and_mark W p final info s).
Proof.
  intros HX. unfold extract_and_mark.
  apply marked_bind; [|done|intros _ s1 H1].
  { destruct (text_sub_tracks info); [apply preserves_ret|].
    by apply preserves_extract_text_subs_if_any. }
  apply marked_bind; [|done|intros _ s2 H2].
  { destruct (image_sub_tracks info); [apply preserves_ret|].
    by apply preserves_extract_image_subs_if_any. }
  unfold bind, processed_add, PathLib.resolve. simpl. rewrite H2. split.
  - apply elem_of_union_r, elem_of_union_l. by apply elem_of_singleton.
  - intros x Hx. rewrite !elem_of_union in Hx. rewrite !elem_of_union. tauto.
Qed.

Lemma marked_process_probed p info s :
  marked p (PathLib.with_suffix p ".mp4") (processed_set s) (process_probed W p info s).
Proof.
  unfold process_probed, PathLib.resolve.
  destruct (String.eqb (video_codec info) "unknown"
            && String.eqb (audio_codec info) "unknown").
  { apply marked_bind; [by apply preserves_log|done|intros _ s1 H1].
    by apply marked_processed_add. }
  destruct (SKIP_4K_OR_HDR W
            && is_4k_or_hdr (width info) (height info) (color_transfer info)).
  { apply marked_bind; [by apply preserves_log|done|intros _ s1 H1].
    by apply marked_processed_add. }
  destruct (already_optimized p info).
  { apply marked_bind; [by apply preserves_log|done|intros _ s1 H1].
    pose proof (marked_extract_and_mark p p (processed_set s) info s1 H1) as Hm.
    destruct (extract_and_mark W p p info s1); simpl in *; [|done].
    destruct Hm as [Hp Hsub]. split; [done|].
    intros x Hx%Hsub. rewrite !elem_of_union in Hx. rewrite !elem_of_union. tauto. }
  apply marked_bind; [by apply preserves_get_temp_conversion_filename|done|intros t s1 H1].
  apply marked_bind; [by apply preserves_convert_to_mp4|done|intros ok s2 H2].
  destruct ok.
  - apply marked_bind; [by apply preserves_unlink|done|intros _ s3 H3].
    apply marked_bind; [by apply preserves_rename|done|intros _ s4 H4].
    apply marked_bind; [by apply preserves_log|done|intros _ s5 H5].
    apply marked_bind; [by apply preserves_check_video_info|done|intros info' s6 H6].
    by apply marked_extract_and_mark.
  - apply marked_bind; [by apply preserves_log|done|intros _ s3 H3].
    by apply marked_processed_add.
Qed.

Lemma marked_process_video p s :
  marked p (PathLib.with_suffix p ".mp4") (processed_set s) (process_video W p s).
Proof.
  unfold process_video, PathLib.resolve. unfold bind at 1. unfold in_processed.
  destruct (decide (p ∈ processed_set s)) as [Hin|Hnew].
  { rewrite bool_decide_eq_true_2 by done. simpl. split; [done|].
    intros x Hx. rewrite !elem_of_union. tauto. }
  rewrite bool_decide_eq_false_2 by done.
  apply marked_bind; [by apply preserves_cleanup_temp_files|done|intros _ s1 H1].
  apply marked_bind; [by apply preserves_compute_file_hash|done|intros h s2 H2].
  apply marked_bind; [by apply preserves_in_hashes|done|intros dup s3 H3].
  destruct (Str.truthy h && dup).
  { apply marked_bind; [by apply preserves_log|done|intros _ s4 H4].
    apply marked_bind; [by apply preserves_unlink|done|intros _ s5 H5].
    by apply marked_processed_add. }
  apply marked_bind; [|done|intros _ s4 H4].
  { destruct (Str.truthy h); [apply preserves_hashes_add|apply preserves_ret]. }
  apply marked_bind; [by apply preserves_log|done|intros _ s5 H5].
  apply marked_bind; [by apply preserves_check_video_info|done|intros info s6 H6].
  rewrite <- H6. apply marked_process_probed.
Qed.

(** X15.  Whenever [process_video] returns, the identity of the file is in the
    handled set, and nothing was added to that set but this identity and the
    path of the converted [.mp4]. *)
Theorem returning_marks_the_identity p s u s' :
  process_video W p s = Ok u s' →
  p ∈ processed_set s'
  ∧ processed_set s' ⊆ {[p]} ∪ {[PathLib.with_suffix p ".mp4"]} ∪ processed_set s.
Proof. intros H. pose proof (marked_process_video p s) as Hm. by rewrite H in Hm. Qed.

(** X16.  When [process_video] raises - the file cannot be read, the prober or
    an extractor times out, a rename fails - the handled set is exactly what
    it was: the file is not marked and will be tried again. *)
Theorem raising_marks_nothing p s e s' :
  process_video W p s = Raise e s' → processed_set s' = processed_set s.
Proof. intros H. pose proof (marked_process_video p s) as Hm. by rewrite H in Hm. Qed.

(** X17.  Processing is idempotent: once [process_video] has returned for a
    file, every later call for it, in any state whose handled set includes
    the one reached, only logs the skip and changes nothing else. *)
Theorem processing_again_only_logs_the_skip p s u s' later :
  process_video W p s = Ok u s' →
  processed_set s' ⊆ processed_set later →
  process_video W p later
  = Ok tt (mkState (fs later) (processed_set later) (processed_hashes later) (clock later)
             (trace later ++ [EvLog LogSkipAlreadyProcessed (PathLib.name p)])).
Proof.
  intros H Hsub. pose proof (marked_process_video p s) as Hm. rewrite H in Hm.
  apply process_video_handled, Hsub, Hm.
Qed.

End marking.

Lemma returning_marks_the_identity_witness :
  let s := Demo.start {[ "/tv/a.mkv" := Demo.hevc_file ]} in
  let s' := state_of (process_video Demo.all_well "/tv/a.mkv" s) in
  "/tv/a.mkv" ∈ processed_set s'
  ∧ processed_set s'
    ⊆ {[ "/tv/a.mkv" ]} ∪ {[ PathLib.with_suffix "/tv/a.mkv" ".mp4" ]} ∪ processed_set s.
Proof.
  intros s s'. apply (returning_marks_the_identity Demo.all_well "/tv/a.mkv" s tt s').
  vm_compute. reflexivity.
Defined.

Lemma raising_marks_nothing_witness :
  let s := Demo.start (library Demo.locked_library) in
  processed_set (state_of (process_video Demo.encoders_fail "/tv/a.mkv" s)) = processed_set s.
Proof.
  intros s.
  apply (raising_marks_nothing Demo.encoders_fail "/tv/a.mkv" s (OSError "/tv/a.mkv")
           (state_of (process_video Demo.encoders_fail "/tv/a.mkv" s))).
  vm_compute. reflexivity.
Defined.

Lemma processing_again_only_logs_the_skip_witness :
  let s := Demo.start {[ "/tv/a.mkv" := Demo.hevc_file ]} in
  let s' := state_of (process_video Demo.all_well "/tv/a.mkv" s) in
  process_video Demo.all_well "/tv/a.mkv" s'
  = Ok tt (mkState (fs s') (processed_set s') (processed_hashes s') (clock s')
             (trace s' ++ [EvLog LogSkipAlreadyProcessed (PathLib.name "/tv/a.mkv")])).
Proof.
  intros s s'.
  apply (processing_again_only_logs_the_skip Demo.all_well "/tv/a.mkv" s tt s' s').
  - vm_compute. reflexivity.
  - reflexivity.
Defined.

(** * Fingerprints and whole runs *)

Section fingerprints_and_runs.

Context (W : World).

Lemma preserves_hashes_extract_and_mark original final info :
  preserves processed_hashes (extract_and_mark W original final info).
Proof.
  unfold extract_and_mark. preserves_auto; try done.
  - by apply preserves_extract_text_subs_if_any.
  - by apply preserves_extract_image_subs_if_any.
Qed.

Lemma preserves_hashes_process_probed p info :
  preserves processed_hashes (process_probed W p info).
Proof.
  unfold process_probed.
  repeat first
    [ preserves_step
    | by apply preserves_check_video_info
    | by apply preserves_convert_to_mp4
    | apply preserves_hashes_extract_and_mark ]; done.
Qed.

(** One call records at most the fingerprint of the file it was given. *)
Lemma process_video_hashes p s :
  processed_hashes (state_of (process_video W p s)) = processed_hashes s
  ∨ ∃ f, fs s !! p = Some f
         ∧ readable f = true
         ∧ (p ∉ processed_set s)
         ∧ (fingerprint W f ∉ processed_hashes s)
         ∧ processed_hashes (state_of (process_video W p s))
           = {[fingerprint W f]} ∪ processed_hashes s.
Proof.
  unfold process_video, PathLib.resolve. rewrite state_of_bind. unfold in_processed.
  destruct (decide (p ∈ processed_set s)) as [Hin|Hnew].
  { rewrite bool_decide_eq_true_2 by done. by left. }
  rewrite bool_decide_eq_false_2 by done.
  destruct (cleanup_temp_files_ok W p s)
    as (s1 & cleaned & Hc & Hp1 & Hh1 & _ & Hsub & _).
  rewrite state_of_bind, Hc. rewrite state_of_bind. unfold compute_file_hash.
  destruct (fs s1 !! p) as [f|] eqn:Hf; [|by left].
  destruct (readable f) eqn:Hr; [|by left].
  fold (fingerprint W f). rewrite state_of_bind. unfold in_hashes.
  destruct (decide (fingerprint W f ∈ processed_hashes s1)) as [Hdup|Hfresh].
  - rewrite bool_decide_eq_true_2 by done.
    destruct (Str.truthy (fingerprint W f)) eqn:Ht; simpl.
    + left. rewrite <- Hh1.
      match goal with |- processed_hashes (state_of (?m s1)) = _ =>
        assert (preserves processed_hashes m) as Hm; [|apply Hm]
      end.
      preserves_auto; done.
    + left. rewrite <- Hh1.
      match goal with |- processed_hashes (state_of (?m s1)) = _ =>
        assert (preserves processed_hashes m) as Hm; [|apply Hm]
      end.
      repeat first [ preserves_step | by apply preserves_check_video_info
                   | apply preserves_hashes_process_probed ]; done.
  - rewrite bool_decide_eq_false_2 by done. rewrite andb_false_r.
    rewrite state_of_bind.
    destruct (Str.truthy (fingerprint W f)) eqn:Ht.
    + right. exists f. split; [by eapply lookup_weaken|]. split; [done|]. split; [done|].
      split; [by rewrite <- Hh1|].
      unfold hashes_add at 1.
      match goal with |- processed_hashes (state_of (?m ?s2)) = _ =>
        assert (preserves processed_hashes m) as Hm; [|rewrite (Hm s2)]
      end.
      { repeat first [ preserves_step | by apply preserves_check_video_info
                     | apply preserves_hashes_process_probed ]; done. }
      simpl. by rewrite Hh1.
    + left. unfold ret at 1. rewrite <- Hh1.
      match goal with |- processed_hashes (state_of (?m s1)) = _ =>
        assert (preserves processed_hashes m) as Hm; [|apply Hm]
      end.
      repeat first [ preserves_step | by apply preserves_check_video_info
                   | apply preserves_hashes_process_probed ]; done.
Qed.

Lemma run_pool_hashes videos s :
  processed_hashes s ⊆ processed_hashes (snd (run_pool W videos s)).
Proof.
  revert s. induction videos as [|v videos IH]; intros s; simpl; [done|].
  pose proof (eff_hashes _ _ _ _ (does_process_video W v s)) as Hv.
  destruct (process_video W v s) as [[] s'|e s']; simpl in *;
    (etrans; [exact Hv|apply IH]).
Qed.

(** X18.  The set of seen fingerprints only grows.  One call of
    [process_video] leaves it as it is or adds the fingerprint of the file it
    was given, which is then a readable file that was not handled and whose
    fingerprint was new; and the set read from [hashes_db.txt] after a run
    includes the set read before it. *)
Theorem seen_fingerprints_only_grow :
  (∀ p s,
     let s' := state_of (process_video W p s) in
     processed_hashes s' = processed_hashes s
     ∨ ∃ f, fs s !! p = Some f
            ∧ readable f = true
            ∧ (p ∉ processed_set s)
            ∧ (fingerprint W f ∉ processed_hashes s)
            ∧ processed_hashes s' = {[fingerprint W f]} ∪ processed_hashes s)
  ∧ (∀ d, load_hash_db d ⊆ load_hash_db (run_disk (main W d))).
Proof.
  split; [intros p s; apply process_video_hashes|].
  intros d. unfold main.
  destruct (scan_video_files W (DIRECTORIES W) (library d)) as [|v vs]; [done|].
  generalize (v :: vs). intros videos.
  pose proof (run_pool_hashes videos
                (mkState (library d) (load_processed_list d) (load_hash_db d) 0 [])) as Hm.
  destruct (run_pool W videos _) as [[e|] s]; simpl in *; [done|].
  intros x Hx. unfold load_hash_db at 1. simpl.
  apply load_save_lines; [by apply Hm|]. by eapply load_lines_safe.
Qed.

Lemma run_pool_marks videos s p :
  (run_pool W videos s).1 = None → p ∈ videos →
  p ∈ processed_set (run_pool W videos s).2.
Proof.
  revert s. induction videos as [|v videos IH]; intros s Hok Hin;
    [by apply elem_of_nil in Hin|].
  simpl in *. pose proof (marked_process_video W v s) as Hm.
  destruct (process_video W v s) as [[] s'|e s']; [|done].
  apply elem_of_cons in Hin as [->|Hin]; [|by apply IH].
  apply (run_pool_processed W videos s'), Hm.
Qed.

(** X19.  When a run completes, every video the scan found is in the handled
    set, and is read back from [processed.txt] unless its path cannot be
    kept on one stripped line. *)
Theorem completed_run_handles_every_video d p :
  run_outcome (main W d) = Completed →
  p ∈ scan_video_files W (DIRECTORIES W) (library d) →
  p ∈ processed_set (run_state (main W d))
  ∧ (line_safe p → p ∈ load_processed_list (run_disk (main W d))).
Proof.
  unfold main.
  destruct (scan_video_files W (DIRECTORIES W) (library d)) as [|v vs]; [done|].
  generalize (v :: vs). intros videos.
  pose proof (run_pool_marks videos
                (mkState (library d) (load_processed_list d) (load_hash_db d) 0 []) p) as Hm.
  destruct (run_pool W videos _) as [[e|] s]; simpl in *; [done|].
  intros _ Hin. split; [by apply Hm|].
  intros Hsafe. unfold load_processed_list. simpl. apply load_save_lines; [by apply Hm|done].
Qed.

(** X20.  A file whose fingerprint is already in [hashes_db.txt] while its
    path is not in [processed.txt] - a file that was renamed or moved after
    an earlier run - is deleted as a duplicate, although no other copy need
    exist: the run completes without probing or encoding anything, the file
    is gone and no file was created. *)
Theorem known_fingerprint_deletes_a_moved_file d b f :
  scan_video_files W (DIRECTORIES W) (library d) = [b] →
  library d !! b = Some f →
  readable f = true →
  ¬ is_temp_of W b b →
  b ∉ load_processed_list d →
  Str.truthy (fingerprint W f) = true →
  fingerprint W f ∈ load_hash_db d →
  let r := main W d in
  run_outcome r = Completed
  ∧ library (run_disk r) !! b = None
  ∧ library (run_disk r) ⊆ library d
  ∧ Forall (λ e, is_probe e = false ∧ is_encode e = false ∧ is_extract e = false)
           (trace (run_state r)).
Proof.
  intros Hscan Hb Hread Hnotemp Hfresh Htruthy Hseen r. subst r.
  unfold main. rewrite Hscan. simpl.
  set (s0 := mkState (library d) (load_processed_list d) (load_hash_db d) 0 []).
  destruct (process_video_duplicate W b s0 f)
    as (s1 & cleaned & Hc & Hsub & Hrem & Hev & ->); try done.
  { rewrite (cleanup_frame W b s0 b Hnotemp). done. }
  simpl. split; [done|]. split; [apply lookup_delete_eq|].
  split; [etrans; [apply delete_subseteq|exact Hsub]|].
  apply Forall_app. split; [|by repeat constructor].
  eapply Forall_impl; [exact Hev|]. by intros [[]?| | | | |].
Qed.

End fingerprints_and_runs.

Lemma completed_run_handles_every_video_witness :
  "/tv/a.mkv" ∈ processed_set (run_state (main Demo.all_well Demo.hevc_library))
  ∧ (line_safe "/tv/a.mkv" →
     "/tv/a.mkv" ∈ load_processed_list (run_disk (main Demo.all_well Demo.hevc_library))).
Proof.
  apply (completed_run_handles_every_video Demo.all_well Demo.hevc_library "/tv/a.mkv").
  - vm_compute. reflexivity.
  - refine (bool_decide_unpack _ _). vm_compute. exact I.
Defined.

Lemma known_fingerprint_deletes_a_moved_file_witness :
  let d := mkDisk {[ "/tv/renamed.mp4" := Demo.h264_file ]} None
                  (Some (save_lines {[ fingerprint Demo.all_well Demo.h264_file ]})) in
  run_outcome (main Demo.all_well d) = Completed
  ∧ library (run_disk (main Demo.all_well d)) !! "/tv/renamed.mp4" = None.
Proof.
  intros d.
  destruct (known_fingerprint_deletes_a_moved_file Demo.all_well d "/tv/renamed.mp4"
              Demo.h264_file) as (H1 & H2 & _).
  - vm_compute. reflexivity.
  - vm_compute. reflexivity.
  - reflexivity.
  - intros [_ H]. vm_compute in H. discriminate H.
  - apply not_elem_of_empty.
  - vm_compute. reflexivity.
  - refine (bool_decide_unpack _ _). vm_compute. exact I.
  - split; [exact H1|exact H2].
Defined.

(** * What processing one file may touch *)

Section frame.

Context (W : World).

Lemma does_check_video_info_of file :
  does (λ _, False) (λ e, ∃ st, e = EvProbe st file) (check_video_info W file).
Proof.
  unfold check_video_info. does_auto; apply does_run_ffprobe; by eexists.
Qed.

Lemma does_convert_to_mp4_commands src dst info :
  does (λ q, q = dst)
       (λ e, is_log e = true ∨ e = EvEncode GPU (gpu_cmd src dst info)
             ∨ e = EvEncode CPU (cpu_cmd src dst info))
       (convert_to_mp4 W src dst info).
Proof. unfold convert_to_mp4. does_auto; simpl; auto. Qed.

Lemma does_maybe_guess_renames srt file :
  is_sidecar srt →
  does is_sidecar (λ e, sub_event e ∧ reads_from file e) (maybe_guess_srt_language W srt).
Proof.
  intros Hs. unfold maybe_guess_srt_language.
  assert (∀ g, is_sidecar (PathLib.with_name srt (PathLib.stem srt +:+ "." +:+ g +:+ ".srt")))
    as Hnew.
  { intros g. rewrite <- !str_app_assoc. apply is_sidecar_with_name. by left. }
  does_auto; simpl; auto.
Qed.

Lemma does_extract_text_reads file tracks :
  does is_sidecar (λ e, sub_event e ∧ reads_from file e)
       (extract_text_subs_if_any W file tracks).
Proof.
  induction tracks as [|[[i c] l] tracks IH]; simpl; [apply does_ret|].
  assert (is_sidecar (PathLib.with_name file
            (PathLib.stem file +:+ "." +:+ track_label i l +:+ ".srt"))) as Hout.
  { rewrite <- !str_app_assoc. apply is_sidecar_with_name. by left. }
  does_auto; simpl; auto.
  - by apply does_run_extraction.
  - by apply does_maybe_guess_renames.
Qed.

Lemma does_extract_image_reads file tracks :
  does is_sidecar (λ e, sub_event e ∧ reads_from file e)
       (extract_image_subs_if_any W file tracks).
Proof.
  induction tracks as [|[[i c] l] tracks IH]; simpl; [apply does_ret|].
  assert (is_sidecar (PathLib.with_name file
            (PathLib.stem file +:+ "." +:+ track_label i l +:+ ".sup"))) as Hout.
  { rewrite <- !str_app_assoc. apply is_sidecar_with_name. by right. }
  does_auto; simpl; auto.
  by apply does_run_extraction.
Qed.

Lemma does_extract_and_mark_reads original file info :
  does is_sidecar (λ e, sub_event e ∧ reads_from file e)
       (extract_and_mark W original file info).
Proof.
  unfold extract_and_mark. does_auto.
  - apply does_extract_text_reads.
  - apply does_extract_image_reads.
Qed.

Lemma does_extract_and_mark_own p original file info :
  file = p ∨ file = PathLib.with_suffix p ".mp4" →
  does (own_path W p) (own_event W p) (extract_and_mark W original file info).
Proof.
  intros Hfile. eapply does_weaken; [| |apply (does_extract_and_mark_reads original file)].
  - unfold own_path. tauto.
  - intros [| |a b| | |cmd] [Hsub Hreads]; simpl in *; try done.
    + by left.
    + destruct Hfile as [->| ->]; auto.
Qed.

Lemma effects_process_probed p info s :
  effects (own_path W p) (own_event W p) s (state_of (process_probed W p info s)).
Proof.
  unfold process_probed.
  destruct (String.eqb (video_codec info) "unknown"
            && String.eqb (audio_codec info) "unknown").
  { match goal with |- effects _ _ _ (state_of (?m s)) =>
      assert (does (own_path W p) (own_event W p) m) as Hm; [does_auto; done|apply Hm]
    end. }
  destruct (SKIP_4K_OR_HDR W
            && is_4k_or_hdr (width info) (height info) (color_transfer info)).
  { match goal with |- effects _ _ _ (state_of (?m s)) =>
      assert (does (own_path W p) (own_event W p) m) as Hm; [does_auto; done|apply Hm]
    end. }
  destruct (already_optimized p info).
  { match goal with |- effects _ _ _ (state_of (?m s)) =>
      assert (does (own_path W p) (own_event W p) m) as Hm; [|apply Hm]
    end.
    does_auto; [done|]. apply does_extract_and_mark_own. by left. }
  run.
  eapply effects_trans.
  { apply (does_get_temp_conversion_filename
             (touch := own_path W p) (ev := own_event W p) W p s). }
  unfold get_temp_conversion_filename. simpl.
  match goal with |- effects _ _ ?s1 (state_of (?m ?s1)) =>
    assert (does (own_path W p) (own_event W p) m) as Hm; [|apply Hm]
  end.
  assert (own_path W p p) as Hp by (by left).
  assert (own_path W p (PathLib.with_suffix p ".mp4")) as Hfinal by (right; by left).
  assert (own_path W p (temp_name W p (clock s))) as Htemp by (right; right; left; eauto).
  repeat first
    [ does_step
    | eapply does_weaken; [| |apply does_check_video_info_of];
        [done|intros ? [st ->]; simpl; by right]
    | eapply does_weaken; [| |apply does_convert_to_mp4_commands];
        [by intros ? ->
        |intros [] [?|[?|?]]; simpl in *; simplify_eq; by eauto]
    | apply does_extract_and_mark_own; by right ]; simpl; eauto.
Qed.

Lemma does_process_video_own p :
  does (own_path W p) (own_event W p) (process_video W p).
Proof.
  unfold process_video.
  assert (own_path W p p) as Hp by (by left).
  repeat first
    [ does_step
    | eapply does_weaken; [| |apply does_cleanup_temp_files];
        [unfold own_path; tauto|intros [[] ?|?| | | |]; simpl; tauto]
    | eapply does_weaken; [| |apply does_check_video_info_of];
        [done|intros ? [st ->]; simpl; by left]
    | intros s; apply effects_process_probed ]; simpl; auto.
Qed.

(** X21.  Processing a video leaves every unrelated file alone: a path that is
    not the video, not its final [.mp4], not a temporary conversion file of
    this video and no subtitle sidecar holds after [process_video] what it
    held before, whether the call returns or raises.  (The encoder and the
    extractor are taken to write nothing but the output path they are
    given.) *)
Theorem unrelated_files_are_untouched p s q :
  q ≠ p →
  q ≠ PathLib.with_suffix p ".mp4" →
  (∀ n, q ≠ temp_name W p n) →
  ¬ is_temp_of W p q →
  ¬ is_sidecar q →
  fs (state_of (process_video W p s)) !! q = fs s !! q.
Proof.
  intros H1 H2 H3 H4 H5. apply (eff_fs _ _ _ _ (does_process_video_own p s)).
  intros [?|[?|[[n ?]|[?|?]]]]; try done. by apply (H3 n).
Qed.

(** X22.  Every action of [process_video] concerns the video it was given.  It
    unlinks only the video or leftover temporary files matching the video's
    pattern; it renames only subtitle sidecars, or a temporary conversion
    file of the video to the video's final [.mp4] path; it probes only the
    video or that final path; every encoder call is the GPU or the CPU
    command from the video into a temporary name of its own; and every
    extractor call reads the video or the final path. *)
Theorem every_action_concerns_the_video p s :
  Forall (λ e,
            let final := PathLib.with_suffix p ".mp4" in
            match e with
            | EvLog _ _ => True
            | EvUnlink q => q = p ∨ is_temp_of W p q
            | EvRename a b =>
                (is_sidecar a ∧ is_sidecar b) ∨ ((∃ n, a = temp_name W p n) ∧ b = final)
            | EvProbe _ q => q = p ∨ q = final
            | EvEncode st cmd =>
                ∃ n info,
                  cmd = match st with GPU => gpu_cmd | CPU => cpu_cmd end
                          p (temp_name W p n) info
            | EvExtract cmd => cmd !! 4%nat = Some p ∨ cmd !! 4%nat = Some final
            end)
         (new_events s (state_of (process_video W p s))).
Proof. apply (events_of_effects _ _ _ _ (does_process_video_own p s)). Qed.

End frame.

Lemma unrelated_files_are_untouched_witness :
  let s := Demo.start {[ "/tv/a.mkv" := Demo.hevc_file; "/tv/other.mkv" := Demo.uhd_file ]} in
  fs (state_of (process_video Demo.all_well "/tv/a.mkv" s)) !! "/tv/other.mkv"
  = fs s !! "/tv/other.mkv".
Proof.
  intros s.
  apply (unrelated_files_are_untouched Demo.all_well "/tv/a.mkv" s "/tv/other.mkv").
  - discriminate.
  - vm_compute. discriminate.
  - intros n H. apply (f_equal (λ x, String.get 4 x)) in H. vm_compute in H. discriminate H.
  - intros [_ H]. vm_compute in H. discriminate H.
  - intros [H|H]; vm_compute in H; discriminate H.
Defined.

(** * When the source file goes away *)

Section source_survival.

Context (W : World).

Lemma final_not_sidecar p : ¬ is_sidecar (PathLib.with_suffix p ".mp4").
Proof.
  unfold PathLib.with_suffix. rewrite <- !str_app_assoc.
  intros [H|H]; apply endswith_same_length in H; done.
Qed.

Lemma elem_of_new_events_later s0 s1 s' pre e :
  trace s1 = trace s0 ++ pre →
  (∃ evs, trace s' = trace s1 ++ evs) →
  e ∈ new_events s1 s' → e ∈ new_events s0 s'.
Proof.
  intros H1 [evs H2] He. rewrite (new_events_app _ _ _ H2) in He.
  rewrite (new_events_app s0 s' (pre ++ evs)) by (by rewrite H2, H1, app_assoc).
  apply elem_of_app. by right.
Qed.

(** After the first probe the source is kept, or its conversion has been
    moved to the final path, or the rename was refused and the conversion is
    left under its temporary name. *)
Lemma process_probed_source p info s f :
  fs s !! p = Some f →
  let r := process_probed W p info s in
  let s' := state_of r in
  let final := PathLib.with_suffix p ".mp4" in
  let temp := temp_name W p (clock s) in
  fs s' !! p = Some f
  ∨ (EvRename temp final ∈ new_events s s' ∧ is_Some (fs s' !! final))
  ∨ (windows W = true ∧ r = Raise (FileExistsError final) s'
     ∧ fs s' !! p = None ∧ is_Some (fs s' !! temp) ∧ is_Some (fs s' !! final)).
Proof.
  intros Hf r s' final temp. subst r s'.
  unfold process_probed.
  destruct (String.eqb (video_codec info) "unknown"
            && String.eqb (audio_codec info) "unknown").
  { by left. }
  destruct (SKIP_4K_OR_HDR W
            && is_4k_or_hdr (width info) (height info) (color_transfer info)).
  { by left. }
  destruct (already_optimized p info) eqn:Eopt.
  { left. run.
    match goal with |- fs (state_of (?m ?s1)) !! p = _ =>
      rewrite (eff_fs _ _ _ _ (does_extract_and_mark W (PathLib.resolve p) p info s1))
    end; [done|]. by eapply already_optimized_not_sidecar. }
  run. fold temp.
  set (s1 := mkState (fs s) (processed_set s) (processed_hashes s) (S (clock s)) (trace s)).
  destruct (convert_to_mp4_returns W p temp info s1)
    as (ok & s2 & Hconv & _ & Hout & Hfs2 & _).
  destruct (trace_grows _ _ _ s1 (does_convert_to_mp4 W p temp info)) as [evs2 Htr2].
  rewrite Hconv in Htr2. simpl in Htr2.
  assert (temp ≠ p) as Htp by apply temp_name_neq.
  assert (fs s2 !! p = Some f) as Hp2 by (rewrite Hfs2; done).
  run. destruct ok; [|by left].
  destruct (Hout eq_refl) as [out Hout'].
  set (s3 := mkState (delete p (fs s2)) (processed_set s2) (processed_hashes s2) (clock s2)
               (trace s2 ++ [EvUnlink p])).
  assert (unlink p s2 = Ok tt s3) as Hunlink by (unfold unlink; by rewrite Hp2).
  run.
  assert (fs s3 !! temp = Some out) as Htemp3
    by (simpl; by rewrite lookup_delete_ne).
  destruct (windows W && bool_decide (is_Some (fs s3 !! final))) eqn:Ewin.
  - assert (rename W temp final s3 = Raise (FileExistsError final) s3) as Hren
      by (unfold rename; by rewrite Htemp3, Ewin).
    erewrite bind_raise by exact Hren.
    apply andb_true_iff in Ewin as [Hw Hex%bool_decide_eq_true].
    right. right. simpl.
    repeat split; first [done | apply lookup_delete_eq | by rewrite lookup_delete_ne].
  - set (s4 := mkState (<[final := out]> (delete temp (fs s3))) (processed_set s3)
                 (processed_hashes s3) (clock s3) (trace s3 ++ [EvRename temp final])).
    assert (rename W temp final s3 = Ok tt s4) as Hren
      by (unfold rename; by rewrite Htemp3, Ewin).
    run. right. left.
    match goal with |- context [state_of (?m s4)] =>
      assert (does is_sidecar (λ _ : event, True) m) as Hrest
    end.
    { repeat first
        [ does_step
        | eapply does_weaken; [| |apply does_check_video_info]; done
        | eapply does_weaken; [| |apply does_extract_and_mark]; done ]; done. }
    destruct (Hrest s4) as [_ _ Hfs (evs & Htr & _)].
    split.
    + rewrite (new_events_app s _ (evs2 ++ [EvUnlink p] ++ [EvRename temp final] ++ evs)).
      * rewrite !elem_of_app, !list_elem_of_singleton. auto.
      * rewrite Htr. simpl. rewrite Htr2. simpl. by rewrite <- !app_assoc.
    + rewrite Hfs by apply final_not_sidecar. simpl. rewrite lookup_insert_eq. by eexists.
Qed.

(** X23.  [process_video] never loses a video silently.  For a file that is on
    disk (and is not itself matched by its own temp-file pattern), after the
    call - returned or raised - one of these holds: the file is on disk with
    the bytes it had; or it was deleted as a duplicate, its fingerprint
    having been seen before; or its conversion was renamed to the final
    [.mp4] path, which exists; or, on a platform whose rename refuses an
    existing target, the rename raised after the source was deleted, leaving
    the conversion under its temporary name beside the older [.mp4]. *)
Theorem source_is_kept_unless_duplicate_or_converted p s f :
  fs s !! p = Some f →
  ¬ is_temp_of W p p →
  let r := process_video W p s in
  let s' := state_of r in
  let final := PathLib.with_suffix p ".mp4" in
  fs s' !! p = Some f
  ∨ (fs s' !! p = None ∧ fingerprint W f ∈ processed_hashes s ∧ r = Ok tt s')
  ∨ (∃ n, EvRename (temp_name W p n) final ∈ new_events s s' ∧ is_Some (fs s' !! final))
  ∨ (∃ n, windows W = true ∧ r = Raise (FileExistsError final) s'
          ∧ fs s' !! p = None ∧ is_Some (fs s' !! temp_name W p n)
          ∧ is_Some (fs s' !! final)).
Proof.
  intros Hf Hnotemp r s' final. subst r s'.
  destruct (decide (p ∈ processed_set s)) as [Hin|Hnew].
  { left. by rewrite process_video_handled. }
  destruct (cleanup_temp_files_ok W p s)
    as (s1 & cleaned & Hc & Hp1 & Hh1 & Hc1 & Hsub & Htr1 & _ & _ & Hframe).
  assert (fs s1 !! p = Some f) as Hf1 by (by rewrite Hframe).
  destruct (readable f) eqn:Hread.
  2: { left. unfold process_video, PathLib.resolve.
       run. rewrite bool_decide_eq_false_2 by done. run.
       erewrite bind_raise; [done|]. unfold compute_file_hash. by rewrite Hf1, Hread. }
  destruct (decide (Str.truthy (fingerprint W f) = true
                    ∧ fingerprint W f ∈ processed_hashes s)) as [[Ht Hdup]|Hnodup].
  { destruct (process_video_duplicate W p s f)
      as (s1' & cleaned' & _ & _ & _ & _ & ->); try done.
    { by rewrite Hc. }
    right. left. simpl. split; [apply lookup_delete_eq|done]. }
  unfold process_video, PathLib.resolve.
  run. rewrite bool_decide_eq_false_2 by done.
  run. erewrite bind_ok by (by apply compute_file_hash_ok).
  run.
  assert (Str.truthy (fingerprint W f) && bool_decide (fingerprint W f ∈ processed_hashes s1)
          = false) as ->.
  { rewrite Hh1. apply not_true_is_false. intros [??%bool_decide_eq_true]%andb_true_iff. auto. }
  match goal with |- context [bind (if ?b then _ else _) _ s1] =>
    assert (∃ s2, (if b then hashes_add (fingerprint W f) else ret tt) s1 = Ok tt s2
                  ∧ fs s2 = fs s1 ∧ trace s2 = trace s1 ∧ clock s2 = clock s1)
      as (s2 & H2 & Hfs2 & Htr2 & Hc2)
      by (destruct b; eexists; (split; [reflexivity|done]))
  end.
  run. run.
  set (s3 := mkState (fs s2) (processed_set s2) (processed_hashes s2) (clock s2)
               (trace s2 ++ [EvLog LogProcessing (PathLib.name p)])).
  pose proof (does_check_video_info W p s3) as Hprobe.
  destruct (check_video_info W p s3) as [info s4|e s4] eqn:Hcheck; simpl in Hprobe.
  2: { erewrite bind_raise by exact Hcheck. left. simpl.
       rewrite (eff_fs _ _ _ _ Hprobe) by tauto. simpl. by rewrite Hfs2. }
  run. destruct Hprobe as [_ _ Hfs4 (evs4 & Htr4 & _)].
  assert (fs s4 !! p = Some f) as Hf4 by (rewrite Hfs4 by tauto; simpl; by rewrite Hfs2).
  assert (trace s4 = trace s ++ (cleaned ++ [EvLog LogProcessing (PathLib.name p)] ++ evs4))
    as Hpre by (rewrite Htr4; simpl; rewrite Htr2, Htr1; by rewrite <- !app_assoc).
  pose proof (trace_grows _ _ _ s4 (does_process_probed W p info)) as Hgrows.
  destruct (process_probed_source p info s4 f Hf4) as [Hkeep|[[Hren Hfin]|Hraise]].
  - by left.
  - right. right. left. exists (clock s4). split; [|done].
    by eapply elem_of_new_events_later.
  - right. right. right. by exists (clock s4).
Qed.

End source_survival.

Lemma source_is_kept_unless_duplicate_or_converted_witness :
  let s := Demo.start {[ "/tv/a.mkv" := Demo.hevc_file ]} in
  let s' := state_of (process_video Demo.encoders_fail "/tv/a.mkv" s) in
  fs s' !! "/tv/a.mkv" = Some Demo.hevc_file.
Proof.
  intros s s'.
  destruct (source_is_kept_unless_duplicate_or_converted Demo.encoders_fail "/tv/a.mkv" s
              Demo.hevc_file) as [H|[H|[H|H]]].
  - vm_compute. reflexivity.
  - intros [_ H]. vm_compute in H. discriminate H.
  - exact H.
  - vm_compute. reflexivity.
  - vm_compute. reflexivity.
  - vm_compute. reflexivity.
Defined.

(** * Successful conversions *)

Section successful_conversion.

Context (W : World).

Lemma convert_to_mp4_succeeds src dst info s :
  ¬ conversion_fails W src dst info (fs s) →
  ∃ s2 out, convert_to_mp4 W src dst info s = Ok true s2
            ∧ conversion_output W src dst info (fs s) = Some out
            ∧ fs s2 !! dst = Some out
            ∧ (∀ q, q ≠ dst → fs s2 !! q = fs s !! q)
            ∧ processed_set s2 = processed_set s
            ∧ processed_hashes s2 = processed_hashes s
            ∧ clock s2 = clock s.
Proof.
  intros Hok.
  pose proof (does_convert_to_mp4 W src dst info s) as Heff.
  unfold conversion_fails in Hok. unfold conversion_output.
  unfold convert_to_mp4, run_ffmpeg, bind, emit, log, get_fs, set_fs, exists_, ret in *.
  simpl in *.
  destruct (ffmpeg W (gpu_cmd src dst info) (fs s)) as [rc written|written]; simpl in *;
    [|done].
  set (f1 := write_output dst written (fs s)) in *.
  destruct (Z.eqb rc 0 && bool_decide (is_Some (f1 !! dst))) eqn:Egpu; simpl in *.
  { apply andb_true_iff in Egpu as [_ [out Hout]%bool_decide_eq_true].
    destruct Heff as [_ _ Hfs _].
    eexists _, out. split; [reflexivity|]. simpl. repeat split; done. }
  apply attempt_failed_iff in Egpu.
  destruct (ffmpeg W (cpu_cmd src dst info) f1) as [rc' written'|written']; simpl in *;
    [|tauto].
  set (f2 := write_output dst written' f1) in *.
  destruct (Z.eqb rc' 0 && bool_decide (is_Some (f2 !! dst))) eqn:Ecpu; simpl in *.
  2: { apply attempt_failed_iff in Ecpu. tauto. }
  apply andb_true_iff in Ecpu as [_ [out Hout]%bool_decide_eq_true].
  destruct Heff as [_ _ Hfs _].
  eexists _, out. split; [reflexivity|]. simpl. repeat split; done.
Qed.

Lemma extract_and_mark_marks_final original final info s u s' :
  extract_and_mark W original final info s = Ok u s' → final ∈ processed_set s'.
Proof.
  unfold extract_and_mark. intros H.
  apply bind_ok_inv in H as (? & s1 & _ & H).
  apply bind_ok_inv in H as (? & s2 & _ & H).
  unfold bind, processed_add, PathLib.resolve in H. simpl in H. simplify_eq. simpl.
  apply elem_of_union_l. by apply elem_of_singleton.
Qed.

(** X24.  The successful path.  When the decision for a file is to convert it
    and the conversion does not fail, the encoder's output ends up at the
    final [.mp4] path, the temporary file is gone and so is the source
    (unless it is the final path itself); if [process_video] returns, the
    source path and the final path are both in the handled set.  The rename
    must not be refused: on a platform whose rename refuses an existing
    target, no other file may sit at the final path. *)
Theorem successful_conversion_replaces_the_source p s f vs as_ ss :
  fs (state_of (cleanup_temp_files W p s)) !! p = Some f →
  readable f = true →
  ffprobe W "v" p (data f) = ProbeStreams vs →
  ffprobe W "a" p (data f) = ProbeStreams as_ →
  ffprobe W "s" p (data f) = ProbeStreams ss →
  ¬ is_sidecar p →
  let info := make_info vs as_ ss in
  let cleaned := fs (state_of (cleanup_temp_files W p s)) in
  let temp := temp_name W p (clock s) in
  let final := PathLib.with_suffix p ".mp4" in
  spec_decide (SKIP_4K_OR_HDR W) p info (fingerprint W f)
              (processed_set s) (processed_hashes s) = Convert →
  ¬ conversion_fails W p temp info cleaned →
  (windows W = true → final ≠ p → cleaned !! final = None) →
  let r := process_video W p s in
  let s' := state_of r in
  is_Some (fs s' !! final)
  ∧ fs s' !! final = conversion_output W p temp info cleaned
  ∧ fs s' !! temp = None
  ∧ (final ≠ p → fs s' !! p = None)
  ∧ ((∃ u, r = Ok u s') → p ∈ processed_set s' ∧ final ∈ processed_set s').
Proof.
  intros Hfile Hread Hv Ha Hs Hnoside info cleaned temp final Hdec Hok Hwin r s'.
  subst r s' cleaned.
  pose proof (spec_decide_inv (SKIP_4K_OR_HDR W) p info (fingerprint W f)
                (processed_set s) (processed_hashes s)) as Hinv.
  rewrite Hdec in Hinv. destruct Hinv as (Hfresh & Hnew & E1 & E2 & E3).
  destruct (process_video_fresh W p s f vs as_ ss)
    as (s1 & cleaned & Hc & Hsub & Hrem & Hev & ->); try done.
  { by intros [_ ?]. }
  rewrite Hc in *. simpl in Hfile, Hok, Hwin. simpl.
  fold info. unfold process_probed. rewrite E1, E2, E3. run. fold temp.
  match goal with |- context [bind (convert_to_mp4 W p temp info) _ ?s0] =>
    destruct (convert_to_mp4_succeeds p temp info s0 Hok)
      as (s2 & out & Hconv & Hout & Hdst & Hfs2 & Hp2 & Hh2 & Hc2)
  end.
  simpl in Hout, Hfs2. rewrite Hout.
  assert (temp ≠ p) as Htp by apply temp_name_neq.
  assert (temp ≠ final) as Htf by apply temp_name_neq_final.
  assert (fs s2 !! p = Some f) as Hsrc by (rewrite Hfs2; done).
  run.
  set (s3 := mkState (delete p (fs s2)) (processed_set s2) (processed_hashes s2) (clock s2)
               (trace s2 ++ [EvUnlink p])).
  assert (unlink p s2 = Ok tt s3) as Hunlink by (unfold unlink; by rewrite Hsrc).
  run.
  assert (fs s3 !! temp = Some out) as Htemp3 by (simpl; by rewrite lookup_delete_ne).
  assert (windows W && bool_decide (is_Some (fs s3 !! final)) = false) as Ewin.
  { destruct (windows W) eqn:Hw; [|done]. simpl. apply bool_decide_eq_false_2.
    destruct (decide (final = p)) as [->|Hne].
    - rewrite lookup_delete_eq. by intros [? ?].
    - rewrite lookup_delete_ne by done. rewrite Hfs2 by done.
      rewrite Hwin by done. by intros [? ?]. }
  set (s4 := mkState (<[final := out]> (delete temp (fs s3))) (processed_set s3)
               (processed_hashes s3) (clock s3) (trace s3 ++ [EvRename temp final])).
  assert (rename W temp final s3 = Ok tt s4) as Hren
    by (unfold rename; by rewrite Htemp3, Ewin).
  run. run.
  set (s5 := mkState _ _ _ _ _).
  assert (fs s5 = <[final := out]> (delete temp (delete p (fs s2)))) as Hfs5 by done.
  pose proof (does_check_video_info W final s5) as Hprobe.
  destruct (check_video_info W final s5) as [info' s6|e s6] eqn:Hcheck; simpl in Hprobe.
  2: { erewrite bind_raise by exact Hcheck. simpl.
       destruct Hprobe as [_ _ Hfs6 _].
       rewrite !Hfs6 by tauto. rewrite Hfs5.
       rewrite lookup_insert_eq. rewrite lookup_insert_ne by done.
       rewrite lookup_delete_eq.
       split; [by eexists|]. split; [done|]. split; [done|]. split.
       - intros Hne. rewrite lookup_insert_ne by done.
         rewrite lookup_delete_ne by done. apply lookup_delete_eq.
       - by intros [u ?]. }
  run. destruct Hprobe as [_ _ Hfs6 _].
  pose proof (does_extract_and_mark W (PathLib.resolve p) final info' s6) as Hext.
  destruct Hext as [_ _ Hfs7 _].
  rewrite !Hfs7 by first [apply final_not_sidecar | apply temp_name_not_sidecar | done].
  rewrite !Hfs6 by tauto. rewrite Hfs5.
  rewrite lookup_insert_eq. rewrite lookup_insert_ne by done. rewrite lookup_delete_eq.
  split; [by eexists|]. split; [done|]. split; [done|]. split.
  - intros Hne. rewrite lookup_insert_ne by done.
    rewrite lookup_delete_ne by done. apply lookup_delete_eq.
  - intros [u Hu].
    match type of Hu with ?m s6 = _ => destruct (m s6) as [u' s7|e s7] eqn:Hmark end;
      [|done]. simpl.
    split; [by eapply extract_and_mark_marks|by eapply extract_and_mark_marks_final].
Qed.

End successful_conversion.

Lemma successful_conversion_replaces_the_source_witness :
  let s := Demo.start {[ "/tv/a.mkv" := Demo.hevc_file ]} in
  let s' := state_of (process_video Demo.all_well "/tv/a.mkv" s) in
  is_Some (fs s' !! PathLib.with_suffix "/tv/a.mkv" ".mp4")
  ∧ fs s' !! temp_name Demo.all_well "/tv/a.mkv" (clock s) = None.
Proof.
  intros s s'.
  destruct (successful_conversion_replaces_the_source Demo.all_well "/tv/a.mkv" s
              Demo.hevc_file [Demo.stream "hevc" 1280 720 None] [Demo.stream "ac3" 0 0 None]
              [Demo.stream "subrip" 0 0 (Some "eng")])
    as (H1 & _ & H3 & _).
  - vm_compute. reflexivity.
  - reflexivity.
  - reflexivity.
  - reflexivity.
  - reflexivity.
  - intros [H|H]; vm_compute in H; discriminate H.
  - vm_compute. reflexivity.
  - intros H. vm_compute in H. destruct H as [[H|H] _].
    + apply H. reflexivity.
    + discriminate H.
  - intros H. discriminate H.
  - split; [exact H1|exact H3].
Defined.

(** * A run over a library that is already handled *)

Section handled_library.

Context (W : World).

Lemma run_pool_handled videos s :
  (∀ p, p ∈ videos → p ∈ processed_set s) →
  ∃ evs, run_pool W videos s
         = (None, mkState (fs s) (processed_set s) (processed_hashes s) (clock s)
                    (trace s ++ evs))
         ∧ Forall (λ e, is_log e = true) evs.
Proof.
  revert s. induction videos as [|v videos IH]; intros s Hall.
  - exists []. rewrite app_nil_r. by destruct s.
  - simpl. rewrite process_video_handled by (apply Hall; by left).
    destruct (IH (mkState (fs s) (processed_set s) (processed_hashes s) (clock s)
                    (trace s ++ [EvLog LogSkipAlreadyProcessed (PathLib.name v)])))
      as (evs & -> & Hevs).
    { intros p Hp. simpl. apply Hall. by right. }
    exists (EvLog LogSkipAlreadyProcessed (PathLib.name v) :: evs). simpl.
    rewrite <- app_assoc. split; [done|]. by constructor.
Qed.

(** X25.  A run over a library in which every video found by the scan is
    already in [processed.txt] changes no file of the library, calls no
    external tool, and leaves the sets read from both state files as they
    were. *)
Theorem handled_library_run_changes_nothing d :
  (∀ p, p ∈ scan_video_files W (DIRECTORIES W) (library d) → p ∈ load_processed_list d) →
  let r := main W d in
  library (run_disk r) = library d
  ∧ load_processed_list (run_disk r) = load_processed_list d
  ∧ load_hash_db (run_disk r) = load_hash_db d
  ∧ (∀ e, run_outcome r ≠ Aborted e)
  ∧ Forall (λ e, is_log e = true) (trace (run_state r)).
Proof.
  intros Hall r. subst r. unfold main.
  destruct (scan_video_files W (DIRECTORIES W) (library d)) as [|v vs]; [by repeat split|].
  destruct (run_pool_handled (v :: vs)
              (mkState (library d) (load_processed_list d) (load_hash_db d) 0 []))
    as (evs & -> & Hevs); [done|].
  unfold load_processed_list, load_hash_db.
  cbn [run_disk run_state run_outcome library processed_txt hashes_db_txt
       processed_set processed_hashes trace fs].
  rewrite !load_save_load. by repeat split.
Qed.

End handled_library.

Lemma handled_library_run_changes_nothing_witness :
  let d := mkDisk {[ "/tv/a.mkv" := Demo.hevc_file ]}
                  (Some (save_lines {[ "/tv/a.mkv" ]})) None in
  library (run_disk (main Demo.all_well d)) = library d
  ∧ load_processed_list (run_disk (main Demo.all_well d)) = load_processed_list d.
Proof.
  intros d.
  destruct (handled_library_run_changes_nothing Demo.all_well d) as (H1 & H2 & _).
  - intros p Hp. change (p ∈ ["/tv/a.mkv"]) in Hp.
    apply list_elem_of_singleton in Hp. subst p.
    refine (bool_decide_unpack _ _). vm_compute. exact I.
  - split; [exact H1|exact H2].
Defined.

(** * Scanning the library *)

Section scanning.

Context (W : World).

Lemma parts_leb_total xs ys :
  PathLib.parts_leb xs ys = true ∨ PathLib.parts_leb ys xs = true.
Proof.
  revert ys. induction xs as [|x xs IH]; intros [|y ys]; simpl; auto.
  rewrite (String.compare_antisym y x).
  destruct (String.compare x y); simpl; auto.
Qed.

#[local] Instance path_le_total : Total PathLib.path_le.
Proof. intros p q. apply parts_leb_total. Qed.

(** X26.  [scan_video_files] lists exactly the files that lie below one of the
    directories and whose name matches [*<ext>] for one of the six video
    extensions, and it lists them in ascending path order, compared
    component by component as pathlib does. *)
Theorem scan_lists_the_videos_in_path_order directories (f : gmap string File) :
  (∀ p, p ∈ scan_video_files W directories f ↔
        ∃ directory ext file,
          directory ∈ directories
          ∧ ext ∈ [".mkv"; ".mp4"; ".avi"; ".mov"; ".flv"; ".wmv"]
          ∧ f !! p = Some file
          ∧ String.prefix (directory +:+ "/") p = true
          ∧ fnmatch W ("*" +:+ ext) (PathLib.name p) = true)
  ∧ Sorted PathLib.path_le (scan_video_files W directories f).
Proof.
  split; [|apply Sorted_merge_sort, _].
  intros p. unfold scan_video_files. rewrite merge_sort_Permutation.
  rewrite list_elem_of_bind. split.
  - intros (directory & Hp & Hdir). apply list_elem_of_bind in Hp as (ext & Hp & Hext).
    unfold rglob in Hp. apply list_elem_of_filter in Hp as [[Hpre Hmatch] Hp].
    apply list_elem_of_fmap in Hp as ([q file] & -> & Hq%elem_of_map_to_list).
    by exists directory, ext, file.
  - intros (directory & ext & file & Hdir & Hext & Hf & Hpre & Hmatch).
    exists directory. split; [|done]. apply list_elem_of_bind. exists ext. split; [|done].
    unfold rglob. apply list_elem_of_filter. split; [done|].
    apply list_elem_of_fmap. exists (p, file). split; [done|]. by apply elem_of_map_to_list.
Qed.

End scanning.
